(** * url-node: the in-memory URL shortener of [src/url-shortener.js]

    A shallow embedding of the class [UrlShortener] and the properties of
    its four public methods [add], [query], [count] and [remove].

    Modelling conventions.
    - A JavaScript string is the [string] of its UTF-8 bytes: a slash, a
      dot and the ASCII letters are single bytes that occur nowhere else, so
      [split], [includes], [startsWith] and equality are those of the code.
    - [toLowerCase] is the platform's: a member of the interface [Platform],
      known only through the facts listed there.
    - The [Map] held in [this.collection] keeps its entries in insertion
      order, and [forEach] visits them in that order, so it is an
      association list: [Map.set] on a present key replaces the value in
      place, on an absent key it appends.
    - A method either completes with a result object and the updated
      instance, or throws; [Throw] stands for the [TypeError] raised when a
      property of [undefined] is read.
    - [Math.random().toString(36)] is the one outside input of the class: the
      string it yields is passed to [add] as the argument [rnd].
    - A [count] is a natural number; the counters stay far below 2^53, where
      JavaScript numbers stop being exact. *)

From Stdlib Require Import String Ascii List Bool Arith Lia.
Import ListNotations.
Open Scope string_scope.

(** ** JavaScript string primitives used by the class *)

Module Js.

Definition lower_char (c : ascii) : ascii :=
  let n := nat_of_ascii c in
  if ((65 <=? n) && (n <=? 90))%nat then ascii_of_nat (n + 32) else c.

(** What [s.toLowerCase()] is on a string of ASCII characters: the letters
    A-Z folded, every other character left alone. *)
Fixpoint fold_ascii (s : string) : string :=
  match s with
  | EmptyString => EmptyString
  | String c s' => String (lower_char c) (fold_ascii s')
  end.

(** A string of ASCII characters: every byte is below 128. *)
Fixpoint is_ascii (s : string) : bool :=
  match s with
  | EmptyString => true
  | String c s' => (nat_of_ascii c <? 128)%nat && is_ascii s'
  end.

(** [s.startsWith(p)] *)
Fixpoint startsWith (p s : string) : bool :=
  match p with
  | EmptyString => true
  | String a p' =>
      match s with
      | EmptyString => false
      | String b s' => Ascii.eqb a b && startsWith p' s'
      end
  end.

(** [s.includes(c)] for a one-character search string [c] *)
Fixpoint includes (c : ascii) (s : string) : bool :=
  match s with
  | EmptyString => false
  | String a s' => Ascii.eqb a c || includes c s'
  end.

(** [s.split('/')]: never empty, one more part than there are slashes *)
Fixpoint split (s : string) : list string :=
  match s with
  | EmptyString => [EmptyString]
  | String c s' =>
      if Ascii.eqb c "/" then EmptyString :: split s'
      else match split s' with
           | [] => [String c EmptyString]
           | p :: ps => String c p :: ps
           end
  end.

(** [parts.join('/')], the inverse of [split] *)
Fixpoint join (parts : list string) : string :=
  match parts with
  | [] => EmptyString
  | [part] => part
  | part :: parts' => part ++ String "/" (join parts')
  end.

(** [s.slice(b, e)] for [0 <= b <= e] *)
Definition slice (b e : nat) (s : string) : string := substring b (e - b) s.

(** Truthiness of a string: only the empty string is falsy. *)
Definition truthy (s : string) : bool := negb (String.eqb s EmptyString).

End Js.

(** ** The platform's [String.prototype.toLowerCase]

    [toLowerCase] maps every cased letter of Unicode, not only A-Z, and the
    class never looks at what it does to a letter.  The function is
    therefore a member of an interface, with the facts about it that the
    properties of the class rest on:
    - on a string of ASCII characters it folds A-Z and nothing else;
    - lower-casing twice is lower-casing once (the image of a letter has no
      lower-case mapping of its own);
    - it maps no character to or from a slash, and the one mapping that
      looks at the neighbours of a letter, that of the final sigma, does not
      look across a slash, which is neither cased nor case-ignorable: so it
      works part by part between the slashes;
    - it maps no character to or from a dot;
    - it does not empty a string. *)

Class Platform : Type :=
  { toLowerCase : string -> string;
    toLowerCase_ascii :
      forall s, Js.is_ascii s = true -> toLowerCase s = Js.fold_ascii s;
    toLowerCase_idem :
      forall s, toLowerCase (toLowerCase s) = toLowerCase s;
    split_toLowerCase :
      forall s, Js.split (toLowerCase s) = List.map toLowerCase (Js.split s);
    includes_dot_toLowerCase :
      forall s, Js.includes "." (toLowerCase s) = Js.includes "." s;
    toLowerCase_nonempty :
      forall s, toLowerCase s = EmptyString -> s = EmptyString }.

(** ** Completions: a value, or a thrown exception *)

Inductive completion (A : Type) : Type :=
| Normal (a : A)
| Throw.
Arguments Normal {A} a.
Arguments Throw {A}.

(** ** Result objects *)

Inductive jsvalue : Type :=
| VStr (s : string)
| VNum (n : nat).

(** [{ value: v }], [{}] and [{ error: { code, message } }] *)
Inductive result : Type :=
| Value (v : jsvalue)
| Empty
| Error (code message : string).

Definition has_value (r : result) : bool :=
  match r with Value _ => true | _ => false end.

Definition has_error (r : result) : bool :=
  match r with Error _ _ => true | _ => false end.

Definition error_code (r : result) : option string :=
  match r with Error c _ => Some c | _ => None end.

Definition error_message (r : result) : option string :=
  match r with Error _ m => Some m | _ => None end.

(** ** The stored association: [{ longUrl, count, active }] *)

Module Element.
Record t : Type := mk { longUrl : string; count : nat; active : bool }.

(** [{ ...e, active: b }] *)
Definition with_active (b : bool) (e : t) : t :=
  mk (longUrl e) (count e) b.

(** [{ ...e, count: n }] *)
Definition with_count (n : nat) (e : t) : t :=
  mk (longUrl e) n (active e).
End Element.

(** ** The [Map] of the instance *)

Definition Map := list (string * Element.t).

Fixpoint map_get (k : string) (m : Map) : option Element.t :=
  match m with
  | [] => None
  | (k', v) :: m' => if String.eqb k' k then Some v else map_get k m'
  end.

Fixpoint map_set (k : string) (v : Element.t) (m : Map) : Map :=
  match m with
  | [] => [(k, v)]
  | (k', v') :: m' =>
      if String.eqb k' k then (k, v) :: m' else (k', v') :: map_set k v m'
  end.

(** A key read from [url.split('/')[3]] is [undefined] when the part is
    missing; no entry is ever stored under [undefined]. *)
Definition get (k : option string) (m : Map) : option Element.t :=
  match k with
  | Some k => map_get k m
  | None => None
  end.

Definition keys (m : Map) : list string := List.map fst m.

(** ** The shape the three [forEach] loops share

    A callback that, on an entry satisfying [p], sets the entry to [g] of
    its value and updates a local variable with [h]. *)

Section Loop.
Variable S : Type.
Variable p : Element.t -> bool.
Variable g : Element.t -> Element.t.
Variable h : string -> Element.t -> S -> S.

Definition callback (acc : Map * S) (entry : string * Element.t) : Map * S :=
  let (key, element) := entry in
  if p element
  then (map_set key (g element) (fst acc), h key element (snd acc))
  else acc.

(** What the loop does to one entry of the map. *)
Definition visit (entry : string * Element.t) : string * Element.t :=
  if p (snd entry) then (fst entry, g (snd entry)) else entry.

(** What the loop does to the local variable at one entry. *)
Definition track (s : S) (entry : string * Element.t) : S :=
  if p (snd entry) then h (fst entry) (snd entry) s else s.
End Loop.
Arguments callback {S} p g h acc entry.
Arguments track {S} p h s entry.

Definition has_longUrl (lower : string) (e : Element.t) : bool :=
  String.eqb (Element.longUrl e) lower.

(** The key [add] finds for a folded URL: that of the last entry holding it. *)
Definition last_key (lower : string) (m : Map) : option string :=
  fold_left (track (has_longUrl lower) (fun key _ _ => Some key)) m None.

(** ** The class *)

Record UrlShortener : Type :=
  { baseUrl : string; collection : Map }.

(** [new UrlShortener(domain)] *)
Definition constructor (domain : string) : UrlShortener :=
  {| baseUrl := domain; collection := [] |}.

Definition set_collection (this : UrlShortener) (m : Map) : UrlShortener :=
  {| baseUrl := baseUrl this; collection := m |}.

(** [Math.random().toString(36).slice(5, 12)], on the rendering [rnd] of the
    random number *)
Definition _generateHash (rnd : string) : string := Js.slice 5 12 rnd.

Section Class.

Context {F : Platform}.

Definition _urlSyntaxError (url : string) : completion (option result) :=
  let urlParts := Js.split url in
  let bad := Error "URL_SYNTAX" ("URL_SYNTAX: bad url " ++ url) in
  if negb (Js.startsWith "http://" (toLowerCase url)
           || Js.startsWith "https://" (toLowerCase url))
  then Normal (Some bad)
  else
    match nth_error urlParts 2 with
    | None => Throw
    | Some authority =>
        if (String.length authority =? 0)%nat || negb (Js.includes "." authority)
        then Normal (Some bad)
        else Normal None
    end.

Definition _notFound : result :=
  Error "NOT_FOUND" "url was never registered for this service".

Definition _isSameOrigin (this : UrlShortener) (url : string) : bool :=
  let urlParts := Js.split (toLowerCase url) in
  match nth_error urlParts 2 with
  | Some authority => String.eqb authority (baseUrl this)
  | None => false
  end.

(** The [forEach] of [add]: every entry whose [longUrl] is the folded URL is
    set active again, and [exists] ends as the key of the last such entry. *)
Definition add_forEach (lower : string) (m : Map) : Map * option string :=
  fold_left
    (fun (acc : Map * option string) (entry : string * Element.t) =>
       let (key, element) := entry in
       if String.eqb (Element.longUrl element) lower
       then (map_set key (Element.with_active true element) (fst acc), Some key)
       else acc)
    m (m, None).

Definition add (rnd longUrl : string) (this : UrlShortener)
  : completion (result * UrlShortener) :=
  match _urlSyntaxError longUrl with
  | Throw => Throw
  | Normal (Some urlSyntaxError) => Normal (urlSyntaxError, this)
  | Normal None =>
      if _isSameOrigin this longUrl
      then Normal (Error "DOMAIN" "longUrl domain is equal to SHORTENER_DOMAIN",
                   this)
      else
        let lower := toLowerCase longUrl in
        let (m, exists_) := add_forEach lower (collection this) in
        let urlParts := Js.split lower in
        let scheme := nth 0 urlParts EmptyString in
        let short key := scheme ++ "//" ++ baseUrl this ++ "/" ++ key in
        match exists_ with
        | Some key =>
            if Js.truthy key
            then Normal (Value (VStr (short key)), set_collection this m)
            else
              let hash := _generateHash rnd in
              Normal (Value (VStr (short hash)),
                      set_collection this
                        (map_set hash (Element.mk lower 0 true) m))
        | None =>
            let hash := _generateHash rnd in
            Normal (Value (VStr (short hash)),
                    set_collection this
                      (map_set hash (Element.mk lower 0 true) m))
        end
  end.

Definition query (shortUrl : string) (this : UrlShortener)
  : completion (result * UrlShortener) :=
  match _urlSyntaxError shortUrl with
  | Throw => Throw
  | Normal (Some urlSyntaxError) => Normal (urlSyntaxError, this)
  | Normal None =>
      if negb (_isSameOrigin this shortUrl)
      then Normal (Error "DOMAIN"
                     "shortUrl domain is not equal to SHORTENER_DOMAIN", this)
      else
        let uniqueHash := nth_error (Js.split shortUrl) 3 in
        let notFound :=
          Error "NOT_FOUND" ("NOT_FOUND: " ++ shortUrl ++ " not found") in
        match uniqueHash, get uniqueHash (collection this) with
        | Some key, Some exist_ =>
            if Js.truthy (Element.longUrl exist_) && Element.active exist_
            then Normal (Value (VStr (Element.longUrl exist_)),
                         set_collection this
                           (map_set key
                              (Element.with_count (Element.count exist_ + 1)%nat exist_)
                              (collection this)))
            else Normal (notFound, this)
        | _, _ => Normal (notFound, this)
        end
  end.

(** The [forEach] of [count]: [exist] ends as the count of the last entry
    whose [longUrl] is the folded URL. *)
Definition count_forEach (lower : string) (m : Map) : option nat :=
  fold_left
    (fun (exist_ : option nat) (entry : string * Element.t) =>
       if String.eqb (Element.longUrl (snd entry)) lower
       then Some (Element.count (snd entry))
       else exist_)
    m None.

(** [has(uniqueHash)] followed by [get(uniqueHash)] is one lookup here. *)
Definition count (url : string) (this : UrlShortener)
  : completion (result * UrlShortener) :=
  match _urlSyntaxError url with
  | Throw => Throw
  | Normal (Some urlSyntaxError) => Normal (urlSyntaxError, this)
  | Normal None =>
      let byLongUrl :=
        match count_forEach (toLowerCase url) (collection this) with
        | Some exist_ => Normal (Value (VNum exist_), this)
        | None => Normal (_notFound, this)
        end in
      if _isSameOrigin this url then
        match get (nth_error (Js.split url) 3) (collection this) with
        | Some data => Normal (Value (VNum (Element.count data)), this)
        | None => byLongUrl
        end
      else byLongUrl
  end.

(** The [forEach] of [remove]: every entry whose [longUrl] is the folded URL
    is set inactive, and [exist] records that there was one. *)
Definition remove_forEach (lower : string) (m : Map) : Map * bool :=
  fold_left
    (fun (acc : Map * bool) (entry : string * Element.t) =>
       let (key, element) := entry in
       if String.eqb (Element.longUrl element) lower
       then (map_set key (Element.with_active false element) (fst acc), true)
       else acc)
    m (m, false).

(** As in [count], [has] followed by [get] is one lookup. *)
Definition remove (url : string) (this : UrlShortener)
  : completion (result * UrlShortener) :=
  match _urlSyntaxError url with
  | Throw => Throw
  | Normal (Some urlSyntaxError) => Normal (urlSyntaxError, this)
  | Normal None =>
      let byLongUrl :=
        let (m, exist_) := remove_forEach (toLowerCase url) (collection this) in
        if exist_ then Normal (Empty, set_collection this m)
        else Normal (_notFound, set_collection this m) in
      if _isSameOrigin this url then
        let uniqueHash := nth_error (Js.split url) 3 in
        match uniqueHash, get uniqueHash (collection this) with
        | Some key, Some data =>
            Normal (Empty,
                    set_collection this
                      (map_set key (Element.with_active false data)
                         (collection this)))
        | _, _ => byLongUrl
        end
      else byLongUrl
  end.

(** The short URL [add] composes: [`${scheme}//${domain}/${key}`]. *)
Definition short_url (scheme domain key : string) : string :=
  scheme ++ "//" ++ domain ++ "/" ++ key.

(** ** The outside world: random numbers and sequences of calls *)

Definition is_digit36 (c : ascii) : bool :=
  let n := nat_of_ascii c in
  (((48 <=? n) && (n <=? 57)) || ((97 <=? n) && (n <=? 122)))%nat.

Fixpoint all_digit36 (s : string) : bool :=
  match s with
  | EmptyString => true
  | String c s' => is_digit36 c && all_digit36 s'
  end.

(** What [Math.random().toString(36)] can yield for a number in [0, 1): the
    string [0], or [0.] followed by at least one digit in base 36. *)
Definition random36 (rnd : string) : bool :=
  match rnd with
  | String "0" EmptyString => true
  | String "0" (String "." ds) => Js.truthy ds && all_digit36 ds
  | _ => false
  end.

(** A call of a public method; [Add] carries the random rendering it is
    given. *)
Inductive call : Type :=
| Add (rnd longUrl : string)
| Query (shortUrl : string)
| Count (url : string)
| Remove (url : string).

Definition invoke (c : call) (this : UrlShortener)
  : completion (result * UrlShortener) :=
  match c with
  | Add rnd longUrl => add rnd longUrl this
  | Query shortUrl => query shortUrl this
  | Count url => count url this
  | Remove url => remove url this
  end.

(** The URL a call is about. *)
Definition url_of (c : call) : string :=
  match c with
  | Add _ longUrl => longUrl
  | Query shortUrl => shortUrl
  | Count url => url
  | Remove url => url
  end.

(** Running calls one after the other, dropping their results. *)
Fixpoint run (cs : list call) (this : UrlShortener) : completion UrlShortener :=
  match cs with
  | [] => Normal this
  | c :: cs' =>
      match invoke c this with
      | Normal (_, this') => run cs' this'
      | Throw => Throw
      end
  end.

(** [n] calls of [query] in a row, each of which must yield [{ value: v }]. *)
Fixpoint queries (n : nat) (shortUrl v : string) (this : UrlShortener)
  : option UrlShortener :=
  match n with
  | O => Some this
  | S n' =>
      match query shortUrl this with
      | Normal (Value (VStr v'), this') =>
          if String.eqb v' v then queries n' shortUrl v this' else None
      | _ => None
      end
  end.

(** The condition a call has to meet for a history to count: [Add] is given
    a rendering that satisfies [ok]. *)
Definition call_ok (ok : string -> bool) (c : call) : bool :=
  match c with
  | Add rnd _ => ok rnd
  | _ => true
  end.

(** The instances that calls of the public methods lead to, from
    [new UrlShortener(domain)]. *)
Inductive reachable_with (ok : string -> bool) (domain : string)
  : UrlShortener -> Prop :=
| reach_new : reachable_with ok domain (constructor domain)
| reach_call : forall c this r this',
    reachable_with ok domain this ->
    call_ok ok c = true ->
    invoke c this = Normal (r, this') ->
    reachable_with ok domain this'.

(** Every history the platform allows. *)
Definition reachable : string -> UrlShortener -> Prop :=
  reachable_with random36.

(** A rendering long enough for [slice(5, 12)] to leave something. *)
Definition nonempty_hash (rnd : string) : bool :=
  random36 rnd && Js.truthy (_generateHash rnd).

(** The histories in which no generated alias was the empty string. *)
Definition reachable_nonempty : string -> UrlShortener -> Prop :=
  reachable_with nonempty_hash.

(** A configured domain that a lower-cased authority of a valid URL can be
    equal to: no slash, a dot, and left as it is by [toLowerCase]. *)
Definition domain_ok (domain : string) : bool :=
  negb (Js.includes "/" domain) && Js.includes "." domain
  && String.eqb (toLowerCase domain) domain.

(** The authority of a URL as the specification words it: the third part
    of the URL split at the slashes. *)
Definition authority (url : string) : string :=
  nth 2 (Js.split url) EmptyString.

(** The alias of a short URL: its fourth part, when there is one. *)
Definition alias (url : string) : option string :=
  nth_error (Js.split url) 3.

(** The validation rule as the specification words it. *)
Definition spec_url_syntax_error (url : string) : bool :=
  negb (Js.startsWith "http://" (toLowerCase url)
        || Js.startsWith "https://" (toLowerCase url))
  || String.eqb (authority url) EmptyString
  || negb (Js.includes "." (authority url)).

(** Same-origin as the specification words it: the authority, lower-cased,
    is the configured domain. *)
Definition spec_same_origin (this : UrlShortener) (url : string) : bool :=
  String.eqb (toLowerCase (authority url)) (baseUrl this).

(** The entry a URL designates: by alias when the URL is same-origin, by
    folded long URL otherwise. *)
Definition matches (this : UrlShortener) (url : string)
  (entry : string * Element.t) : bool :=
  if spec_same_origin this url
  then match alias url with
       | Some k => String.eqb (fst entry) k
       | None => false
       end
  else String.eqb (Element.longUrl (snd entry)) (toLowerCase url).

Definition set_active (b : bool) (entry : string * Element.t)
  : string * Element.t :=
  (fst entry, Element.with_active b (snd entry)).

(** What the stored long URLs have in common. *)
Definition stored_ok (domain : string) (e : Element.t) : Prop :=
  _urlSyntaxError (Element.longUrl e) = Normal None
  /\ toLowerCase (Element.longUrl e) = Element.longUrl e
  /\ nth_error (Js.split (Element.longUrl e)) 2 <> Some domain.

(** The invariant of the reachable instances. *)
Record wf (domain : string) (this : UrlShortener) : Prop :=
  { wf_domain : baseUrl this = domain;
    wf_nodup : NoDup (keys (collection this));
    wf_keys : Forall (fun k => Js.includes "/" k = false) (keys (collection this));
    wf_stored : Forall (fun entry => stored_ok domain (snd entry))
                  (collection this) }.

(** No two entries for one long URL. *)
Definition unique_longUrl (m : Map) : Prop :=
  forall k1 e1 k2 e2,
    In (k1, e1) m -> In (k2, e2) m ->
    Element.longUrl e1 = Element.longUrl e2 -> k1 = k2.

Definition truthy_keys (m : Map) : Prop :=
  Forall (fun k => Js.truthy k = true) (keys m).

(** The invariant of the histories without an empty alias. *)
Definition good (domain : string) (this : UrlShortener) : Prop :=
  wf domain this
  /\ truthy_keys (collection this)
  /\ unique_longUrl (collection this).

(** The alias under which a call of [add] stores a new entry, when it
    stores one: the URL passes both checks and the loop found no entry with
    a non-empty key for it. *)
Definition draws (rnd longUrl : string) (this : UrlShortener) : option string :=
  match _urlSyntaxError longUrl with
  | Normal None =>
      if _isSameOrigin this longUrl then None
      else match last_key (toLowerCase longUrl) (collection this) with
           | Some key => if Js.truthy key then None else Some (_generateHash rnd)
           | None => Some (_generateHash rnd)
           end
  | _ => None
  end.

(** A call on [this] that is no [add] of the long URL [longUrl] and no
    [add] that stores a new entry under the alias [key]. *)
Definition quiet (key longUrl : string) (this : UrlShortener) (c : call) : bool :=
  match c with
  | Add rnd u =>
      random36 rnd
      && negb (String.eqb (toLowerCase u) longUrl)
      && match draws rnd u this with
         | Some k => negb (String.eqb k key)
         | None => true
         end
  | _ => true
  end.

(** A sequence of calls each of which is quiet on the instance it meets. *)
Fixpoint quiet_run (key longUrl : string) (cs : list call) (this : UrlShortener)
  : bool :=
  match cs with
  | [] => true
  | c :: cs' =>
      quiet key longUrl this c
      && match invoke c this with
         | Normal (_, this') => quiet_run key longUrl cs' this'
         | Throw => true
         end
  end.

(** The entry under [key] is inactive and holds [longUrl]. *)
Definition removed (domain key longUrl : string) (this : UrlShortener) : Prop :=
  wf domain this
  /\ exists e, map_get key (collection this) = Some e
               /\ Element.longUrl e = longUrl
               /\ Element.active e = false.

(** What an alias drawn by [_generateHash] looks like: at most seven
    characters, each a digit in base 36. *)
Definition alias_ok (key : string) : bool :=
  (String.length key <=? 7)%nat && all_digit36 key.

(** The number of calls of [add] in a sequence of calls. *)
Fixpoint count_adds (cs : list call) : nat :=
  match cs with
  | [] => 0%nat
  | Add _ _ :: cs' => S (count_adds cs')
  | _ :: cs' => count_adds cs'
  end.

End Class.

(** * Facts about the string primitives *)

Module JsFacts.
Import Js.

Ltac by_cases_on_char c :=
  destruct c as [[] [] [] [] [] [] [] []]; vm_compute; reflexivity.

Lemma lower_char_idem (c : ascii) : lower_char (lower_char c) = lower_char c.
Proof. by_cases_on_char c. Qed.

Lemma lower_char_slash (c : ascii) :
  Ascii.eqb (lower_char c) "/" = Ascii.eqb c "/".
Proof. by_cases_on_char c. Qed.

Lemma lower_char_dot (c : ascii) :
  Ascii.eqb (lower_char c) "." = Ascii.eqb c ".".
Proof. by_cases_on_char c. Qed.

Lemma digit36_not_slash (c : ascii) :
  is_digit36 c = true -> Ascii.eqb c "/" = false.
Proof.
  destruct c as [[] [] [] [] [] [] [] []]; vm_compute; congruence.
Qed.

Lemma fold_ascii_idem (s : string) :
  fold_ascii (fold_ascii s) = fold_ascii s.
Proof.
  induction s as [|c s IH]; simpl; [reflexivity|].
  now rewrite lower_char_idem, IH.
Qed.

Lemma fold_ascii_app (a b : string) :
  fold_ascii (a ++ b) = fold_ascii a ++ fold_ascii b.
Proof.
  induction a as [|c a IH]; simpl; [reflexivity|]. now rewrite IH.
Qed.

Lemma length_fold_ascii (s : string) :
  String.length (fold_ascii s) = String.length s.
Proof.
  induction s as [|c s IH]; simpl; [reflexivity|]. now rewrite IH.
Qed.

Lemma includes_dot_fold_ascii (s : string) :
  includes "." (fold_ascii s) = includes "." s.
Proof.
  induction s as [|c s IH]; simpl; [reflexivity|].
  now rewrite lower_char_dot, IH.
Qed.

Lemma includes_slash_fold_ascii (s : string) :
  includes "/" (fold_ascii s) = includes "/" s.
Proof.
  induction s as [|c s IH]; simpl; [reflexivity|].
  now rewrite lower_char_slash, IH.
Qed.

Lemma split_not_nil (s : string) : split s <> [].
Proof.
  induction s as [|c s IH]; simpl; [discriminate|].
  destruct (Ascii.eqb c "/"); [discriminate|].
  destruct (split s); discriminate.
Qed.

(** The fold of ASCII letters moves no slash: it commutes with [split]. *)
Lemma split_fold_ascii (s : string) :
  split (fold_ascii s) = List.map fold_ascii (split s).
Proof.
  induction s as [|c s IH]; simpl; [reflexivity|].
  rewrite lower_char_slash.
  destruct (Ascii.eqb c "/"); simpl; [now rewrite IH|].
  rewrite IH. destruct (split s); reflexivity.
Qed.

Lemma split_no_slash (a : string) :
  includes "/" a = false -> split a = [a].
Proof.
  induction a as [|c a IH]; simpl; [reflexivity|].
  intros H. apply orb_false_iff in H as [Hc Ha].
  rewrite Hc, (IH Ha). reflexivity.
Qed.

Lemma split_app_slash (a b : string) :
  includes "/" a = false ->
  split (a ++ String "/" b) = a :: split b.
Proof.
  induction a as [|c a IH]; simpl; [reflexivity|].
  intros H. apply orb_false_iff in H as [Hc Ha].
  rewrite Hc, (IH Ha). reflexivity.
Qed.

Lemma startsWith_app (p s : string) :
  startsWith p s = true -> exists rest, s = p ++ rest.
Proof.
  revert s. induction p as [|a p IH]; intros s H; simpl in *.
  - now exists s.
  - destruct s as [|b s]; [discriminate|].
    apply andb_true_iff in H as [Hab Hp].
    apply Ascii.eqb_eq in Hab. subst b.
    destruct (IH _ Hp) as [rest ->]. now exists rest.
Qed.

Lemma startsWith_app_true (p rest : string) : startsWith p (p ++ rest) = true.
Proof.
  induction p as [|a p IH]; simpl; [reflexivity|].
  now rewrite Ascii.eqb_refl, IH.
Qed.

(** A string with one of the two prefixes splits into a scheme, an empty
    part, and the parts of what follows the two slashes. *)
Lemma split_scheme (l : string) :
  startsWith "http://" l || startsWith "https://" l = true ->
  exists scheme rest,
    (scheme = "http:" \/ scheme = "https:")
    /\ l = scheme ++ "//" ++ rest
    /\ split l = scheme :: "" :: split rest.
Proof.
  intros H. apply orb_true_iff in H as [H|H];
    apply startsWith_app in H as [rest ->].
  - exists "http:", rest. repeat split; auto.
  - exists "https:", rest. repeat split; auto.
Qed.

Lemma includes_app (c : ascii) (a b : string) :
  includes c (a ++ b) = includes c a || includes c b.
Proof.
  induction a as [|x a IH]; simpl; [reflexivity|].
  now rewrite IH, orb_assoc.
Qed.

Lemma includes_substring (c : ascii) (s : string) :
  includes c s = false ->
  forall n m, includes c (substring n m s) = false.
Proof.
  induction s as [|x s IH]; intros H n m.
  - destruct n, m; reflexivity.
  - simpl in H. apply orb_false_iff in H as [Hx Hs].
    destruct n as [|n].
    + destruct m as [|m]; simpl; [reflexivity|]. now rewrite Hx, IH.
    + simpl. now apply IH.
Qed.

Lemma all_digit36_no_slash (s : string) :
  all_digit36 s = true -> includes "/" s = false.
Proof.
  induction s as [|c s IH]; simpl; [reflexivity|].
  intros H. apply andb_true_iff in H as [Hc Hs].
  now rewrite (digit36_not_slash _ Hc), IH.
Qed.

Lemma random36_no_slash (rnd : string) :
  random36 rnd = true -> includes "/" rnd = false.
Proof.
  unfold random36. intros H.
  destruct rnd as [|a [|b ds]]; try discriminate.
  - destruct a as [[] [] [] [] [] [] [] []]; try discriminate; reflexivity.
  - destruct a as [[] [] [] [] [] [] [] []]; try discriminate.
    destruct b as [[] [] [] [] [] [] [] []]; try discriminate.
    apply andb_true_iff in H as [_ H]. simpl.
    now apply all_digit36_no_slash.
Qed.

Lemma generateHash_no_slash (rnd : string) :
  random36 rnd = true -> includes "/" (_generateHash rnd) = false.
Proof.
  intros H. unfold _generateHash, slice.
  apply includes_substring. now apply random36_no_slash.
Qed.

Lemma split_app (a b : string) :
  split (a ++ String "/" b) = (split a ++ split b)%list.
Proof.
  induction a as [|c a IH]; simpl; [reflexivity|].
  destruct (Ascii.eqb c "/"); rewrite IH; [reflexivity|].
  pose proof (split_not_nil a). destruct (split a); [contradiction|reflexivity].
Qed.

Lemma includes_slash_length (s : string) :
  includes "/" s = negb (List.length (split s) =? 1)%nat.
Proof.
  induction s as [|c s IH]; simpl; [reflexivity|].
  destruct (Ascii.eqb c "/"); simpl.
  - pose proof (split_not_nil s). now destruct (split s).
  - rewrite IH. pose proof (split_not_nil s).
    destruct (split s); [contradiction|reflexivity].
Qed.

Lemma fold_ascii_nonempty (s : string) : fold_ascii s = "" -> s = "".
Proof. destruct s; [reflexivity|discriminate]. Qed.

Lemma join_cons (c : ascii) (part : string) (parts : list string) :
  join (String c part :: parts) = String c (join (part :: parts)).
Proof. destruct parts; reflexivity. Qed.

Lemma join_split (s : string) : join (split s) = s.
Proof.
  induction s as [|c s IH]; [reflexivity|]. simpl.
  destruct (Ascii.eqb_spec c "/") as [->|].
  - pose proof (split_not_nil s). destruct (split s) as [|p ps] eqn:E;
      [contradiction|].
    change (join ("" :: p :: ps)) with (String "/" (join (p :: ps))).
    now rewrite IH.
  - pose proof (split_not_nil s). destruct (split s) as [|p ps] eqn:E;
      [contradiction|]. now rewrite join_cons, IH.
Qed.

(** A string is determined by its parts. *)
Lemma split_inj (a b : string) : split a = split b -> a = b.
Proof.
  intros H. rewrite <- (join_split a), <- (join_split b). now rewrite H.
Qed.

End JsFacts.

(** * The platform on ASCII

    The fold of the ASCII letters satisfies the interface.  Every platform
    agrees with it on ASCII strings, so it serves to run the class on
    concrete ASCII inputs. *)

Definition ascii_platform : Platform :=
  {| toLowerCase := Js.fold_ascii;
     toLowerCase_ascii := fun s _ => eq_refl;
     toLowerCase_idem := JsFacts.fold_ascii_idem;
     split_toLowerCase := JsFacts.split_fold_ascii;
     includes_dot_toLowerCase := JsFacts.includes_dot_fold_ascii;
     toLowerCase_nonempty := JsFacts.fold_ascii_nonempty |}.

(** * Facts about the association list behind [Map] *)

Module MapFacts.
Local Open Scope list_scope.

Lemma map_get_set_same (k : string) (v : Element.t) (m : Map) :
  map_get k (map_set k v m) = Some v.
Proof.
  induction m as [|[k' v'] m IH]; simpl.
  - now rewrite String.eqb_refl.
  - destruct (String.eqb k' k) eqn:E; simpl.
    + now rewrite String.eqb_refl.
    + now rewrite E.
Qed.

Lemma map_get_set_other (k k' : string) (v : Element.t) (m : Map) :
  k <> k' -> map_get k' (map_set k v m) = map_get k' m.
Proof.
  intros Hne. induction m as [|[k0 v0] m IH]; simpl.
  - apply String.eqb_neq in Hne. now rewrite Hne.
  - destruct (String.eqb k0 k) eqn:E; simpl.
    + apply String.eqb_eq in E. subst k0.
      apply String.eqb_neq in Hne. now rewrite Hne.
    + now rewrite IH.
Qed.

Lemma map_get_None (k : string) (m : Map) :
  map_get k m = None <-> ~ In k (keys m).
Proof.
  induction m as [|[k' v'] m IH]; simpl.
  - tauto.
  - destruct (String.eqb_spec k' k).
    + split; [discriminate|]. intros H. exfalso. apply H. now left.
    + rewrite IH. tauto.
Qed.

Lemma map_get_In (k : string) (e : Element.t) (m : Map) :
  map_get k m = Some e -> In (k, e) m.
Proof.
  induction m as [|[k' v'] m IH]; simpl; [discriminate|].
  destruct (String.eqb_spec k' k).
  - intros [= ->]. subst. now left.
  - intros H. right. now apply IH.
Qed.

Lemma In_keys (k : string) (e : Element.t) (m : Map) :
  In (k, e) m -> In k (keys m).
Proof. intros H. apply (in_map fst) in H. exact H. Qed.

Lemma In_map_get (k : string) (e : Element.t) (m : Map) :
  NoDup (keys m) -> In (k, e) m -> map_get k m = Some e.
Proof.
  induction m as [|[k' v'] m IH]; simpl; [tauto|].
  intros Hnd [H|H].
  - injection H as -> ->. now rewrite String.eqb_refl.
  - inversion Hnd as [|? ? Hnotin Hnd']; subst.
    destruct (String.eqb_spec k' k).
    + subst. exfalso. apply Hnotin. eapply In_keys; eauto.
    + now apply IH.
Qed.

Lemma keys_map_set (k : string) (v : Element.t) (m : Map) :
  keys (map_set k v m) = if in_dec string_dec k (keys m)
                         then keys m else keys m ++ [k].
Proof.
  induction m as [|[k' v'] m IH]; simpl; [reflexivity|].
  destruct (String.eqb_spec k' k).
  - subst. simpl. destruct (string_dec k k); [reflexivity|congruence].
  - simpl. rewrite IH.
    destruct (string_dec k' k); [congruence|].
    destruct (in_dec string_dec k (keys m)); reflexivity.
Qed.

Lemma NoDup_map_set (k : string) (v : Element.t) (m : Map) :
  NoDup (keys m) -> NoDup (keys (map_set k v m)).
Proof.
  intros H. rewrite keys_map_set.
  destruct (in_dec string_dec k (keys m)); [assumption|].
  apply NoDup_rev in H. rewrite <- (rev_involutive (keys m ++ [k])).
  apply NoDup_rev. rewrite rev_app_distr. simpl.
  constructor; [now rewrite <- in_rev|assumption].
Qed.

Lemma In_map_set (k : string) (v : Element.t) (m : Map) entry :
  In entry (map_set k v m) -> entry = (k, v) \/ In entry m.
Proof.
  induction m as [|[k' v'] m IH]; simpl.
  - intros [H|[]]. now left.
  - destruct (String.eqb k' k); simpl.
    + intros [H|H]; auto.
    + intros [H|H]; auto. destruct (IH H); auto.
Qed.

Lemma In_map_set_other (k : string) (v : Element.t) (m : Map) k' e' :
  k' <> k -> In (k', e') m -> In (k', e') (map_set k v m).
Proof.
  intros Hne. induction m as [|[k0 v0] m IH]; simpl; [tauto|].
  destruct (String.eqb_spec k0 k).
  - subst. intros [H|H]; simpl; [congruence|auto].
  - intros [H|H]; simpl; auto.
Qed.

Lemma In_map_set_same (k : string) (v : Element.t) (m : Map) :
  In (k, v) (map_set k v m).
Proof. apply map_get_In, map_get_set_same. Qed.

(** Setting a key that sits behind a prefix free of it. *)
Lemma map_set_middle (k : string) (v e : Element.t) (l1 l2 : Map) :
  ~ In k (keys l1) ->
  map_set k v (l1 ++ (k, e) :: l2) = l1 ++ (k, v) :: l2.
Proof.
  induction l1 as [|[k' v'] l1 IH]; simpl; intros H.
  - now rewrite String.eqb_refl.
  - destruct (String.eqb_spec k' k); [exfalso; apply H; now left|].
    rewrite IH; [reflexivity|]. intros Hin. apply H. now right.
Qed.

(** With distinct keys, [set] on a present key rewrites one entry. *)
Lemma map_set_as_map (k : string) (v : Element.t) (m : Map) :
  NoDup (keys m) -> In k (keys m) ->
  map_set k v m
  = List.map (fun entry => if String.eqb (fst entry) k then (k, v) else entry) m.
Proof.
  induction m as [|[k' v'] m IH]; simpl; [tauto|].
  intros Hnd Hin. inversion Hnd as [|? ? Hnotin Hnd']; subst.
  destruct (String.eqb_spec k' k).
  - subst. f_equal. clear IH Hin Hnd Hnd'.
    induction m as [|[k0 v0] m IHm]; simpl; [reflexivity|].
    simpl in Hnotin.
    destruct (String.eqb_spec k0 k); [exfalso; apply Hnotin; now left|].
    f_equal. apply IHm. intros H. apply Hnotin. now right.
  - f_equal. apply IH; [assumption|]. destruct Hin; [congruence|assumption].
Qed.

(** ** The three [forEach] loops *)

Section ForEach.
Variable S : Type.
Variable p : Element.t -> bool.
Variable g : Element.t -> Element.t.
Variable h : string -> Element.t -> S -> S.

Lemma keys_visit (m : Map) : keys (List.map (visit p g) m) = keys m.
Proof.
  unfold keys. rewrite map_map. apply map_ext.
  intros [k e]. unfold visit. simpl. now destruct (p e).
Qed.

Lemma forEach_snd (l : Map) (acc : Map * S) :
  snd (fold_left (callback p g h) l acc) = fold_left (track p h) l (snd acc).
Proof.
  revert acc. induction l as [|[k e] l IH]; intros acc; simpl; [reflexivity|].
  rewrite IH. f_equal. unfold track, callback. simpl. now destruct (p e).
Qed.

Lemma forEach_no_match (l : Map) (acc : Map * S) :
  (forall entry, In entry l -> p (snd entry) = false) ->
  fold_left (callback p g h) l acc = acc.
Proof.
  revert acc. induction l as [|[k e] l IH]; intros acc H; simpl; [reflexivity|].
  assert (Hp : p e = false) by (apply (H (k, e)); now left).
  rewrite Hp. apply IH. intros entry Hin. apply H. now right.
Qed.

Lemma forEach_fst_gen (l1 l2 : Map) (s : S) :
  NoDup (keys (l1 ++ l2)) ->
  fst (fold_left (callback p g h) l2 (List.map (visit p g) l1 ++ l2, s))
  = List.map (visit p g) (l1 ++ l2).
Proof.
  revert l1 s. induction l2 as [|[k e] l2 IH]; intros l1 s Hnd.
  - simpl. now rewrite !app_nil_r.
  - assert (Hk : ~ In k (keys (List.map (visit p g) l1))).
    { rewrite keys_visit. unfold keys in *. rewrite map_app in Hnd. simpl in Hnd.
      apply NoDup_remove_2 in Hnd. intros Hin. apply Hnd.
      apply in_or_app. now left. }
    assert (Hstep : (callback p g h) (List.map (visit p g) l1 ++ (k, e) :: l2, s) (k, e)
                    = (List.map (visit p g) (l1 ++ [(k, e)]) ++ l2, (track p h) s (k, e))).
    { rewrite map_app, <- app_assoc.
      unfold callback, track, visit. simpl.
      destruct (p e); [|reflexivity].
      now rewrite (map_set_middle _ _ _ _ _ Hk). }
    cbn [fold_left]. rewrite Hstep, IH.
    + now rewrite <- app_assoc.
    + now rewrite <- app_assoc.
Qed.

(** With distinct keys the loop rewrites each matching entry in place. *)
Lemma forEach_spec (m : Map) (s : S) :
  NoDup (keys m) ->
  fold_left (callback p g h) m (m, s) = (List.map (visit p g) m, fold_left (track p h) m s).
Proof.
  intros Hnd.
  rewrite (surjective_pairing (fold_left (callback p g h) m (m, s))).
  f_equal.
  - apply (forEach_fst_gen [] m s Hnd).
  - apply forEach_snd.
Qed.

Lemma visit_no_match (m : Map) :
  (forall entry, In entry m -> p (snd entry) = false) ->
  List.map (visit p g) m = m.
Proof.
  intros H. rewrite <- (map_id m) at 2. apply map_ext_in.
  intros entry Hin. unfold visit. now rewrite (H _ Hin).
Qed.
End ForEach.

End MapFacts.

(** * Facts about the private methods *)

Import Js JsFacts MapFacts.

Section Properties.

Context {F : Platform}.

(** * Facts about [toLowerCase] that follow from the interface *)

Lemma toLowerCase_empty : toLowerCase "" = "".
Proof. now rewrite toLowerCase_ascii. Qed.

Lemma toLowerCase_app_slash (a b : string) :
  toLowerCase (a ++ String "/" b)
  = toLowerCase a ++ String "/" (toLowerCase b).
Proof.
  apply split_inj.
  rewrite split_toLowerCase, !split_app, map_app, <- !split_toLowerCase.
  reflexivity.
Qed.

Lemma includes_slash_toLowerCase (s : string) :
  includes "/" (toLowerCase s) = includes "/" s.
Proof.
  now rewrite !includes_slash_length, split_toLowerCase, length_map.
Qed.

Lemma eqb_empty_toLowerCase (s : string) :
  String.eqb (toLowerCase s) "" = String.eqb s "".
Proof.
  destruct (String.eqb_spec s "") as [->|Hne].
  - now rewrite toLowerCase_empty.
  - apply String.eqb_neq. intros H. now apply toLowerCase_nonempty in H.
Qed.

Lemma _isSameOrigin_toLowerCase_parts (url : string) :
  nth_error (split (toLowerCase url)) 2
  = option_map toLowerCase (nth_error (split url) 2).
Proof. rewrite split_toLowerCase. apply nth_error_map. Qed.

(** * Facts about the private methods *)


(** The prefix check leaves at least three parts, so [urlParts[2]] is
    there when it is read. *)
Lemma three_parts (url : string) :
  startsWith "http://" (toLowerCase url)
  || startsWith "https://" (toLowerCase url) = true ->
  exists a b c rest, split url = a :: b :: c :: rest.
Proof.
  intros H. destruct (split_scheme _ H) as (scheme & rest & _ & _ & Hs).
  rewrite split_toLowerCase in Hs.
  destruct (split url) as [|a [|b [|c tl]]]; simpl in Hs; try discriminate.
  - injection Hs as _ _ Hs. symmetry in Hs. now apply split_not_nil in Hs.
  - now exists a, b, c, tl.
Qed.

Lemma length_zero_eqb (s : string) :
  (String.length s =? 0)%nat = String.eqb s "".
Proof. now destruct s. Qed.

(** The validation helper never throws, and it is the rule of the
    specification. *)
Lemma _urlSyntaxError_spec (url : string) :
  _urlSyntaxError url
  = if spec_url_syntax_error url
    then Normal (Some (Error "URL_SYNTAX" ("URL_SYNTAX: bad url " ++ url)))
    else Normal None.
Proof.
  unfold _urlSyntaxError, spec_url_syntax_error, authority.
  destruct (startsWith "http://" (toLowerCase url)
            || startsWith "https://" (toLowerCase url)) eqn:Hp; simpl;
    [|reflexivity].
  destruct (three_parts _ Hp) as (a & b & c & rest & ->). simpl.
  rewrite length_zero_eqb.
  now destruct (String.eqb c ""), (includes "." c).
Qed.

Lemma valid_three_parts (url : string) :
  _urlSyntaxError url = Normal None ->
  exists a b c rest,
    split url = a :: b :: c :: rest /\ c <> "" /\ includes "." c = true.
Proof.
  unfold _urlSyntaxError.
  destruct (startsWith "http://" (toLowerCase url)
            || startsWith "https://" (toLowerCase url)) eqn:Hp; simpl;
    [|discriminate].
  destruct (three_parts _ Hp) as (a & b & c & rest & ->). simpl.
  rewrite length_zero_eqb.
  destruct (String.eqb_spec c ""); simpl; [discriminate|].
  destruct (includes "." c) eqn:Hd; simpl; [|discriminate].
  intros _. exists a, b, c, rest. auto.
Qed.

Lemma valid_prefix (url : string) :
  _urlSyntaxError url = Normal None ->
  startsWith "http://" (toLowerCase url)
  || startsWith "https://" (toLowerCase url) = true.
Proof.
  unfold _urlSyntaxError.
  destruct (startsWith "http://" (toLowerCase url)
            || startsWith "https://" (toLowerCase url)); simpl;
    [reflexivity|discriminate].
Qed.

Lemma authority_toLowerCase (url : string) :
  authority (toLowerCase url) = toLowerCase (authority url).
Proof.
  unfold authority. rewrite split_toLowerCase.
  transitivity (nth 2 (List.map toLowerCase (split url)) (toLowerCase ""));
    [now rewrite toLowerCase_empty|apply map_nth].
Qed.

(** Validity does not depend on the case of the letters. *)
Lemma spec_url_syntax_error_toLowerCase (url : string) :
  spec_url_syntax_error (toLowerCase url) = spec_url_syntax_error url.
Proof.
  unfold spec_url_syntax_error.
  now rewrite toLowerCase_idem, authority_toLowerCase, includes_dot_toLowerCase,
    eqb_empty_toLowerCase.
Qed.

Lemma valid_toLowerCase (url : string) :
  _urlSyntaxError (toLowerCase url) = Normal None
  <-> _urlSyntaxError url = Normal None.
Proof.
  rewrite !_urlSyntaxError_spec, spec_url_syntax_error_toLowerCase.
  destruct (spec_url_syntax_error url); split; congruence.
Qed.

Lemma valid_truthy (url : string) :
  _urlSyntaxError url = Normal None -> truthy url = true.
Proof.
  intros H. apply valid_prefix in H.
  destruct url; [rewrite toLowerCase_empty in H; discriminate|reflexivity].
Qed.

(** On a valid URL the origin test of the code is that of the
    specification. *)
Lemma _isSameOrigin_spec (this : UrlShortener) (url : string) :
  _urlSyntaxError url = Normal None ->
  _isSameOrigin this url = spec_same_origin this url.
Proof.
  intros H. destruct (valid_three_parts _ H) as (a & b & c & rest & Hs & _).
  unfold _isSameOrigin, spec_same_origin, authority.
  rewrite split_toLowerCase, Hs. reflexivity.
Qed.

Lemma _isSameOrigin_toLowerCase (this : UrlShortener) (url : string) :
  _isSameOrigin this (toLowerCase url) = _isSameOrigin this url.
Proof. unfold _isSameOrigin. now rewrite toLowerCase_idem. Qed.

Lemma _isSameOrigin_parts (this : UrlShortener) (url : string) :
  _isSameOrigin this url = true <->
  nth_error (split (toLowerCase url)) 2 = Some (baseUrl this).
Proof.
  unfold _isSameOrigin.
  destruct (nth_error (split (toLowerCase url)) 2) as [a|].
  - rewrite String.eqb_eq. split; congruence.
  - split; discriminate.
Qed.

(** ** The loops of [add], [count] and [remove] *)

Lemma track_last (S : Type) (p : Element.t -> bool)
  (f : string -> Element.t -> S) (m : Map) (s0 : S) :
  (fold_left (track p (fun k e _ => f k e)) m s0 = s0
   /\ forall entry, In entry m -> p (snd entry) = false)
  \/ exists k e, In (k, e) m /\ p e = true
                 /\ fold_left (track p (fun k e _ => f k e)) m s0 = f k e.
Proof.
  revert s0. induction m as [|[k e] m IH]; intros s0; simpl.
  - left. split; [reflexivity|]. intros ? [].
  - unfold track at 2 4. simpl. destruct (p e) eqn:Hp.
    + right. destruct (IH (f k e)) as [[Hr _]|(k' & e' & Hin & Hp' & Hr)].
      * exists k, e. auto.
      * exists k', e'. auto.
    + destruct (IH s0) as [[Hr Hno]|(k' & e' & Hin & Hp' & Hr)].
      * left. split; [assumption|]. intros entry [<-|Hin]; auto.
      * right. exists k', e'. auto.
Qed.

Lemma add_forEach_spec (lower : string) (m : Map) :
  NoDup (keys m) ->
  add_forEach lower m
  = (List.map (visit (has_longUrl lower) (Element.with_active true)) m,
     last_key lower m).
Proof.
  intros H.
  apply (forEach_spec _ (has_longUrl lower) (Element.with_active true)
           (fun key _ _ => Some key) m None H).
Qed.

Lemma add_forEach_snd (lower : string) (m : Map) :
  snd (add_forEach lower m) = last_key lower m.
Proof.
  apply (forEach_snd _ (has_longUrl lower) (Element.with_active true)
           (fun key _ _ => Some key) m (m, None)).
Qed.

Lemma last_key_Some (lower : string) (m : Map) (k : string) :
  last_key lower m = Some k ->
  exists e, In (k, e) m /\ Element.longUrl e = lower.
Proof.
  unfold last_key. intros H.
  destruct (track_last _ (has_longUrl lower) (fun k _ => Some k) m None)
    as [[Hr _]|(k' & e' & Hin & Hp & Hr)]; [congruence|].
  rewrite Hr in H. injection H as <-. exists e'. split; [assumption|].
  now apply String.eqb_eq.
Qed.

Lemma last_key_None (lower : string) (m : Map) :
  last_key lower m = None ->
  forall entry, In entry m -> has_longUrl lower (snd entry) = false.
Proof.
  unfold last_key. intros H.
  destruct (track_last _ (has_longUrl lower) (fun k _ => Some k) m None)
    as [[_ Hno]|(k' & e' & Hin & Hp & Hr)]; [assumption|congruence].
Qed.

Lemma last_key_found (lower : string) (m : Map) k e :
  In (k, e) m -> Element.longUrl e = lower ->
  exists k', last_key lower m = Some k'.
Proof.
  intros Hin HL. destruct (last_key lower m) as [k'|] eqn:E; [eauto|].
  pose proof (last_key_None _ _ E _ Hin) as H. unfold has_longUrl in H.
  simpl in H. rewrite HL, String.eqb_refl in H. discriminate.
Qed.

Lemma remove_forEach_spec (lower : string) (m : Map) :
  NoDup (keys m) ->
  remove_forEach lower m
  = (List.map (visit (has_longUrl lower) (Element.with_active false)) m,
     fold_left (track (has_longUrl lower) (fun _ _ _ => true)) m false).
Proof.
  intros H.
  apply (forEach_spec _ (has_longUrl lower) (Element.with_active false)
           (fun _ _ _ => true) m false H).
Qed.

(** Without a match the loop of [remove] sets nothing. *)
Lemma remove_forEach_false (lower : string) (m : Map) :
  snd (remove_forEach lower m) = false ->
  remove_forEach lower m = (m, false)
  /\ forall entry, In entry m -> has_longUrl lower (snd entry) = false.
Proof.
  intros H.
  pose proof (forEach_snd _ (has_longUrl lower) (Element.with_active false)
                (fun _ _ _ => true) m (m, false)) as Hs.
  change (fold_left _ m (m, false)) with (remove_forEach lower m) in Hs.
  rewrite H in Hs. simpl in Hs.
  destruct (track_last _ (has_longUrl lower) (fun _ _ => true) m false)
    as [[_ Hno]|(k' & e' & Hin & Hp & Hr)]; [|congruence].
  split; [|assumption].
  apply (forEach_no_match _ (has_longUrl lower) (Element.with_active false)
           (fun _ _ _ => true) m (m, false) Hno).
Qed.

Lemma remove_forEach_true (lower : string) (m : Map) :
  snd (remove_forEach lower m) = true ->
  exists k e, In (k, e) m /\ Element.longUrl e = lower.
Proof.
  intros H.
  pose proof (forEach_snd _ (has_longUrl lower) (Element.with_active false)
                (fun _ _ _ => true) m (m, false)) as Hs.
  change (fold_left _ m (m, false)) with (remove_forEach lower m) in Hs.
  rewrite H in Hs. simpl in Hs.
  destruct (track_last _ (has_longUrl lower) (fun _ _ => true) m false)
    as [[Hr _]|(k' & e' & Hin & Hp & Hr)]; [congruence|].
  exists k', e'. split; [assumption|]. now apply String.eqb_eq.
Qed.

Lemma count_forEach_cases (lower : string) (m : Map) :
  (count_forEach lower m = None
   /\ forall entry, In entry m -> has_longUrl lower (snd entry) = false)
  \/ exists k e, In (k, e) m /\ Element.longUrl e = lower
                 /\ count_forEach lower m = Some (Element.count e).
Proof.
  destruct (track_last _ (has_longUrl lower) (fun _ e => Some (Element.count e))
              m None) as [[Hr Hno]|(k' & e' & Hin & Hp & Hr)].
  - left. split; assumption.
  - right. exists k', e'. repeat split; try assumption.
    now apply String.eqb_eq.
Qed.

(** * The invariant of the reachable instances *)

Lemma set_collection_same (this : UrlShortener) :
  set_collection this (collection this) = this.
Proof. now destruct this. Qed.

Lemma wf_new (domain : string) : wf domain (constructor domain).
Proof. split; simpl; constructor. Qed.

Lemma wf_visit (domain : string) (this : UrlShortener)
  (p : Element.t -> bool) (g : Element.t -> Element.t) :
  (forall e, Element.longUrl (g e) = Element.longUrl e) ->
  wf domain this ->
  wf domain (set_collection this (List.map (visit p g) (collection this))).
Proof.
  intros Hg [Hd Hnd Hk Hs]. split; simpl.
  - assumption.
  - now rewrite keys_visit.
  - now rewrite keys_visit.
  - apply Forall_forall. intros entry Hin.
    apply in_map_iff in Hin as ([k e] & <- & Hin).
    rewrite Forall_forall in Hs. specialize (Hs _ Hin). simpl in Hs.
    unfold visit. simpl. destruct (p e); simpl; [|assumption].
    unfold stored_ok in *. now rewrite Hg.
Qed.

Lemma wf_map_set (domain : string) (this : UrlShortener)
  (k : string) (v : Element.t) :
  includes "/" k = false -> stored_ok domain v ->
  wf domain this ->
  wf domain (set_collection this (map_set k v (collection this))).
Proof.
  intros Hk Hv [Hd Hnd Hks Hs]. split; simpl.
  - assumption.
  - now apply NoDup_map_set.
  - rewrite keys_map_set.
    destruct (in_dec string_dec k (keys (collection this))); [assumption|].
    apply Forall_app. split; [assumption|]. now constructor.
  - apply Forall_forall. intros entry Hin.
    apply In_map_set in Hin as [->|Hin]; [assumption|].
    rewrite Forall_forall in Hs. now apply Hs.
Qed.

Lemma wf_lookup (domain : string) (this : UrlShortener) k e :
  wf domain this -> map_get k (collection this) = Some e ->
  includes "/" k = false /\ stored_ok domain e.
Proof.
  intros [Hd Hnd Hks Hs] Hget. apply map_get_In in Hget. split.
  - rewrite Forall_forall in Hks. apply Hks. eapply In_keys; eauto.
  - rewrite Forall_forall in Hs. apply (Hs _ Hget).
Qed.

Lemma stored_ok_new (domain : string) (this : UrlShortener) (u : string) :
  baseUrl this = domain ->
  _urlSyntaxError u = Normal None -> _isSameOrigin this u = false ->
  stored_ok domain (Element.mk (toLowerCase u) 0 true).
Proof.
  intros Hd Hv Ho. unfold stored_ok. simpl. repeat split.
  - now apply valid_toLowerCase.
  - apply toLowerCase_idem.
  - intros H. rewrite <- Hd in H. apply _isSameOrigin_parts in H. congruence.
Qed.

(** What [add] does once the URL has passed the two checks. *)
Lemma add_valid (this : UrlShortener) (rnd u : string) :
  NoDup (keys (collection this)) ->
  _urlSyntaxError u = Normal None -> _isSameOrigin this u = false ->
  let lower := toLowerCase u in
  let m := List.map (visit (has_longUrl lower) (Element.with_active true))
             (collection this) in
  let short key := nth 0 (split lower) "" ++ "//" ++ baseUrl this ++ "/" ++ key in
  let fresh := Normal (Value (VStr (short (_generateHash rnd))),
                       set_collection this
                         (map_set (_generateHash rnd)
                            (Element.mk lower 0 true) m)) in
  add rnd u this
  = match last_key lower (collection this) with
    | Some key =>
        if truthy key
        then Normal (Value (VStr (short key)), set_collection this m)
        else fresh
    | None => fresh
    end.
Proof.
  intros Hnd Hv Ho. unfold add. rewrite Hv, Ho.
  rewrite (add_forEach_spec _ _ Hnd). reflexivity.
Qed.

Lemma wf_add (domain : string) (this this' : UrlShortener) rnd u r :
  random36 rnd = true -> wf domain this ->
  add rnd u this = Normal (r, this') -> wf domain this'.
Proof.
  intros Hrnd Hwf. pose proof Hwf as [Hd Hnd Hks Hs].
  destruct (_urlSyntaxError u) as [[bad|]|] eqn:Hv;
    [unfold add; rewrite Hv; congruence| |unfold add; rewrite Hv; discriminate].
  destruct (_isSameOrigin this u) eqn:Ho;
    [unfold add; rewrite Hv, Ho; congruence|].
  rewrite (add_valid this rnd u Hnd Hv Ho).
  assert (Hm : wf domain
                 (set_collection this
                    (List.map (visit (has_longUrl (toLowerCase u))
                                 (Element.with_active true)) (collection this))))
    by (apply wf_visit; [reflexivity|assumption]).
  assert (Hfresh : wf domain
                     (set_collection this
                        (map_set (_generateHash rnd)
                           (Element.mk (toLowerCase u) 0 true)
                           (List.map (visit (has_longUrl (toLowerCase u))
                                        (Element.with_active true))
                              (collection this))))).
  { apply (wf_map_set domain _ (_generateHash rnd)
             (Element.mk (toLowerCase u) 0 true)) in Hm.
    - exact Hm.
    - now apply generateHash_no_slash.
    - now apply (stored_ok_new domain this). }
  destruct (last_key (toLowerCase u) (collection this)) as [key|].
  - destruct (truthy key); intros [= <- <-]; assumption.
  - intros [= <- <-]; assumption.
Qed.

Lemma wf_query (domain : string) (this this' : UrlShortener) s r :
  wf domain this -> query s this = Normal (r, this') -> wf domain this'.
Proof.
  intros Hwf. unfold query.
  destruct (_urlSyntaxError s) as [[bad|]|]; [congruence| |discriminate].
  destruct (negb (_isSameOrigin this s)); [congruence|].
  destruct (nth_error (split s) 3) as [key|]; simpl; [|congruence].
  destruct (map_get key (collection this)) as [e|] eqn:Hget; [|congruence].
  destruct (truthy (Element.longUrl e) && Element.active e); [|congruence].
  intros [= <- <-].
  destruct (wf_lookup _ _ _ _ Hwf Hget) as [Hk He].
  apply wf_map_set; assumption.
Qed.

Lemma wf_count (domain : string) (this this' : UrlShortener) u r :
  wf domain this -> count u this = Normal (r, this') -> wf domain this'.
Proof.
  intros Hwf. unfold count.
  destruct (_urlSyntaxError u) as [[bad|]|]; [congruence| |discriminate].
  destruct (_isSameOrigin this u);
    [destruct (get (nth_error (split u) 3) (collection this))|];
    destruct (count_forEach (toLowerCase u) (collection this)); congruence.
Qed.

Lemma wf_remove (domain : string) (this this' : UrlShortener) u r :
  wf domain this -> remove u this = Normal (r, this') -> wf domain this'.
Proof.
  intros Hwf. pose proof Hwf as [Hd Hnd Hks Hs]. unfold remove.
  destruct (_urlSyntaxError u) as [[bad|]|]; [congruence| |discriminate].
  rewrite (remove_forEach_spec _ _ Hnd).
  assert (Hm : wf domain
                 (set_collection this
                    (List.map (visit (has_longUrl (toLowerCase u))
                                 (Element.with_active false)) (collection this))))
    by (apply wf_visit; [reflexivity|assumption]).
  assert (Hlong : forall b : bool,
             (if b
              then Normal (Empty, set_collection this
                     (List.map (visit (has_longUrl (toLowerCase u))
                                  (Element.with_active false)) (collection this)))
              else Normal (_notFound, set_collection this
                     (List.map (visit (has_longUrl (toLowerCase u))
                                  (Element.with_active false)) (collection this))))
             = Normal (r, this') -> wf domain this').
  { intros [|] [= <- <-]; assumption. }
  destruct (_isSameOrigin this u); [|apply Hlong].
  destruct (nth_error (split u) 3) as [key|]; simpl; [|apply Hlong].
  destruct (map_get key (collection this)) as [e|] eqn:Hget; [|apply Hlong].
  intros [= <- <-].
  destruct (wf_lookup _ _ _ _ Hwf Hget) as [Hk He].
  apply wf_map_set; assumption.
Qed.

Lemma wf_invoke (domain : string) (c : call) (this this' : UrlShortener) r :
  call_ok random36 c = true -> wf domain this ->
  invoke c this = Normal (r, this') -> wf domain this'.
Proof.
  destruct c; simpl; intros Hok Hwf H.
  - eapply wf_add; eauto.
  - eapply wf_query; eauto.
  - eapply wf_count; eauto.
  - eapply wf_remove; eauto.
Qed.

Lemma reachable_with_wf (ok : string -> bool) (domain : string)
  (this : UrlShortener) :
  (forall rnd, ok rnd = true -> random36 rnd = true) ->
  reachable_with ok domain this -> wf domain this.
Proof.
  intros Hok H. induction H as [|c this r this' _ IH Hc Hi].
  - apply wf_new.
  - eapply wf_invoke; eauto. destruct c; simpl in *; auto.
Qed.

Lemma reachable_wf (domain : string) (this : UrlShortener) :
  reachable domain this -> wf domain this.
Proof. apply reachable_with_wf. auto. Qed.

Lemma reachable_nonempty_reachable (domain : string) (this : UrlShortener) :
  reachable_nonempty domain this -> reachable domain this.
Proof.
  intros H. induction H as [|c this r this' _ IH Hc Hi].
  - constructor.
  - eapply reach_call; eauto. destruct c; simpl in *; auto.
    unfold nonempty_hash in Hc. now apply andb_true_iff in Hc as [Hc _].
Qed.

(** * The validation rule, failures and totality *)

Lemma remove_forEach_no_match (lower : string) (m : Map) :
  (forall entry, In entry m -> has_longUrl lower (snd entry) = false) ->
  remove_forEach lower m = (m, false).
Proof.
  intros H.
  apply (forEach_no_match _ (has_longUrl lower) (Element.with_active false)
           (fun _ _ _ => true) m (m, false) H).
Qed.

Lemma count_forEach_no_match (lower : string) (m : Map) :
  (forall entry, In entry m -> has_longUrl lower (snd entry) = false) ->
  count_forEach lower m = None.
Proof.
  intros H.
  destruct (count_forEach_cases lower m) as [[Hr _]|(k & e & Hin & HL & _)];
    [assumption|].
  specialize (H _ Hin). unfold has_longUrl in H. simpl in H.
  rewrite HL, String.eqb_refl in H. discriminate.
Qed.

(** No stored long URL is a short URL of the instance. *)
Lemma no_same_origin_stored (domain : string) (this : UrlShortener) (url : string) :
  wf domain this -> _isSameOrigin this url = true ->
  forall entry, In entry (collection this) ->
                has_longUrl (toLowerCase url) (snd entry) = false.
Proof.
  intros [Hd _ _ Hs] Ho entry Hin.
  rewrite Forall_forall in Hs. destruct (Hs _ Hin) as (_ & _ & Hne).
  unfold has_longUrl. apply String.eqb_neq. intros HL. apply Hne.
  rewrite HL, <- Hd. now apply _isSameOrigin_parts.
Qed.

(** An invalid URL is refused before anything else is looked at. *)
Lemma invoke_invalid (c : call) (this : UrlShortener) :
  spec_url_syntax_error (url_of c) = true ->
  invoke c this
  = Normal (Error "URL_SYNTAX" ("URL_SYNTAX: bad url " ++ url_of c), this).
Proof.
  intros H.
  destruct c as [rnd u|u|u|u]; simpl in *;
    [unfold add|unfold query|unfold count|unfold remove];
    now rewrite _urlSyntaxError_spec, H.
Qed.

(** On a valid URL every method completes, and not with URL_SYNTAX. *)
Lemma invoke_valid (c : call) (this : UrlShortener) :
  spec_url_syntax_error (url_of c) = false ->
  exists r this',
    invoke c this = Normal (r, this') /\ error_code r <> Some "URL_SYNTAX".
Proof.
  intros H.
  destruct c as [rnd u|u|u|u]; simpl in *;
    [unfold add|unfold query|unfold count|unfold remove];
    rewrite _urlSyntaxError_spec, H.
  - destruct (_isSameOrigin this u).
    + eexists _, _. split; [reflexivity|discriminate].
    + destruct (add_forEach (toLowerCase u) (collection this)) as [m [key|]];
        [destruct (truthy key)|];
        eexists _, _; (split; [reflexivity|discriminate]).
  - destruct (negb (_isSameOrigin this u)).
    + eexists _, _. split; [reflexivity|discriminate].
    + destruct (nth_error (split u) 3) as [key|]; simpl;
        [destruct (map_get key (collection this)) as [e|];
         [destruct (truthy (Element.longUrl e) && Element.active e)|]|];
        eexists _, _; (split; [reflexivity|discriminate]).
  - destruct (_isSameOrigin this u);
      [destruct (get (nth_error (split u) 3) (collection this))|];
      try destruct (count_forEach (toLowerCase u) (collection this));
      eexists _, _; (split; [reflexivity|discriminate]).
  - destruct (remove_forEach (toLowerCase u) (collection this)) as [m [|]];
      destruct (_isSameOrigin this u);
      try (destruct (nth_error (split u) 3) as [key|]; simpl;
           [destruct (map_get key (collection this))|]);
      eexists _, _; (split; [reflexivity|discriminate]).
Qed.

Lemma invoke_total (c : call) (this : UrlShortener) :
  exists r this', invoke c this = Normal (r, this').
Proof.
  destruct (spec_url_syntax_error (url_of c)) eqn:H.
  - rewrite (invoke_invalid c this H). eauto.
  - destruct (invoke_valid c this H) as (r & this' & Hi & _). eauto.
Qed.

(** C8: each of the four methods answers with a URL_SYNTAX error, and the
    instance as it was, exactly when the URL does not start with http:// or
    https:// (letters in any case), or its third part is empty, or that part
    holds no dot; the instance and its domain play no role in that. *)
Theorem url_syntax_rule (c : call) (this : UrlShortener) :
  if spec_url_syntax_error (url_of c)
  then invoke c this
       = Normal (Error "URL_SYNTAX" ("URL_SYNTAX: bad url " ++ url_of c), this)
  else exists r this',
      invoke c this = Normal (r, this') /\ error_code r <> Some "URL_SYNTAX".
Proof.
  destruct (spec_url_syntax_error (url_of c)) eqn:H.
  - now apply invoke_invalid.
  - now apply invoke_valid.
Qed.

(** C9: a call that answers with an error object leaves the instance, and
    so its map, exactly as it was. *)
Theorem failure_leaves_store (c : call) (this this' : UrlShortener) (r : result) :
  invoke c this = Normal (r, this') ->
  has_error r = true ->
  this' = this.
Proof.
  destruct c as [rnd u|u|u|u]; simpl;
    [unfold add|unfold query|unfold count|unfold remove];
    (destruct (_urlSyntaxError u) as [[bad|]|]; [congruence| |discriminate]).
  - destruct (_isSameOrigin this u); [congruence|].
    destruct (add_forEach (toLowerCase u) (collection this)) as [m [key|]];
      [destruct (truthy key)|]; intros [= <- <-]; discriminate.
  - destruct (negb (_isSameOrigin this u)); [congruence|].
    destruct (nth_error (split u) 3) as [key|]; simpl; [|congruence].
    destruct (map_get key (collection this)) as [e|]; [|congruence].
    destruct (truthy (Element.longUrl e) && Element.active e); [|congruence].
    intros [= <- <-]; discriminate.
  - destruct (_isSameOrigin this u);
      [destruct (get (nth_error (split u) 3) (collection this))|];
      destruct (count_forEach (toLowerCase u) (collection this)); congruence.
  - assert (Hlong :
        (let (m, exist_) := remove_forEach (toLowerCase u) (collection this) in
         if exist_ then Normal (Empty, set_collection this m)
         else Normal (_notFound, set_collection this m)) = Normal (r, this') ->
        has_error r = true -> this' = this).
    { destruct (remove_forEach (toLowerCase u) (collection this)) as [m b] eqn:E.
      destruct b; intros [= <- <-]; [discriminate|]. intros _.
      destruct (remove_forEach_false (toLowerCase u) (collection this)) as [H _];
        [now rewrite E|].
      rewrite E in H. injection H as ->. apply set_collection_same. }
    destruct (_isSameOrigin this u); [|exact Hlong].
    destruct (nth_error (split u) 3) as [key|]; simpl; [|exact Hlong].
    destruct (map_get key (collection this)); [|exact Hlong].
    intros [= <- <-]; discriminate.
Qed.

(** C10: no method throws, whatever string it is given: the validation
    helper reads the third part of the URL only after the prefix check, which
    leaves at least three parts; and on a valid same-origin URL without a
    fourth part [query], [count] and [remove] answer NOT_FOUND and change
    nothing. *)
Theorem operations_total :
  (forall url : string, exists e, _urlSyntaxError url = Normal e)
  /\ (forall url : string,
        startsWith "http://" (toLowerCase url)
        || startsWith "https://" (toLowerCase url) = true ->
        exists authority, nth_error (split url) 2 = Some authority)
  /\ (forall (c : call) (this : UrlShortener),
        exists r this', invoke c this = Normal (r, this'))
  /\ (forall (domain : string) (this : UrlShortener) (url : string),
        reachable domain this ->
        _urlSyntaxError url = Normal None ->
        _isSameOrigin this url = true ->
        nth_error (split url) 3 = None ->
        query url this
        = Normal (Error "NOT_FOUND" ("NOT_FOUND: " ++ url ++ " not found"), this)
        /\ count url this = Normal (_notFound, this)
        /\ remove url this = Normal (_notFound, this)).
Proof.
  split; [|split; [|split]].
  - intros url. rewrite _urlSyntaxError_spec.
    destruct (spec_url_syntax_error url); eauto.
  - intros url H. destruct (three_parts _ H) as (a & b & c & rest & ->).
    now exists c.
  - apply invoke_total.
  - intros domain this url Hreach Hv Ho H3.
    apply reachable_wf in Hreach.
    pose proof (no_same_origin_stored _ _ _ Hreach Ho) as Hno.
    unfold query, count, remove. rewrite Hv, Ho, H3. simpl.
    rewrite (count_forEach_no_match _ _ Hno), (remove_forEach_no_match _ _ Hno).
    rewrite set_collection_same. auto.
Qed.

(** C7: [count] never answers DOMAIN; on a valid URL it answers with the
    count of an entry the URL designates (by alias when same-origin, by
    folded long URL otherwise), active or not, and with NOT_FOUND when the
    URL designates none; it changes nothing. *)
Theorem count_behaviour :
  (forall (this this' : UrlShortener) (url : string) (r : result),
      count url this = Normal (r, this') -> error_code r <> Some "DOMAIN")
  /\ (forall (domain : string) (this : UrlShortener) (url : string),
        reachable domain this ->
        _urlSyntaxError url = Normal None ->
        ((exists entry, In entry (collection this)
                        /\ matches this url entry = true) ->
         exists entry, In entry (collection this)
                       /\ matches this url entry = true
                       /\ count url this
                          = Normal (Value (VNum (Element.count (snd entry))), this))
        /\ ((forall entry, In entry (collection this) ->
                           matches this url entry = false) ->
            count url this = Normal (_notFound, this))).
Proof.
  split.
  - intros this this' url r. unfold count. rewrite _urlSyntaxError_spec.
    destruct (spec_url_syntax_error url); [intros [= <- <-]; discriminate|].
    destruct (_isSameOrigin this url);
      [destruct (get (nth_error (split url) 3) (collection this))|];
      destruct (count_forEach (toLowerCase url) (collection this));
      intros [= <- <-]; discriminate.
  - intros domain this url Hreach Hv. apply reachable_wf in Hreach.
    pose proof (wf_nodup _ _ Hreach) as Hnd.
    pose proof (_isSameOrigin_spec this _ Hv) as Ho.
    unfold count, matches. rewrite Hv, Ho. unfold alias.
    destruct (spec_same_origin this url) eqn:Hso.
    + pose proof (no_same_origin_stored _ _ _ Hreach Ho) as Hno.
      destruct (nth_error (split url) 3) as [key|]; cbn [get].
      * split.
        -- intros ([k e] & Hin & Hm). simpl in Hm.
           apply String.eqb_eq in Hm. subst k.
           rewrite (In_map_get _ _ _ Hnd Hin).
           exists (key, e). simpl. rewrite String.eqb_refl. auto.
        -- intros Hnone.
           destruct (map_get key (collection this)) as [e|] eqn:Hget.
           ++ apply map_get_In in Hget. specialize (Hnone _ Hget).
              simpl in Hnone. now rewrite String.eqb_refl in Hnone.
           ++ now rewrite (count_forEach_no_match _ _ Hno).
      * split.
        -- intros (entry & _ & Hm). discriminate.
        -- intros _. now rewrite (count_forEach_no_match _ _ Hno).
    + split.
      * intros ([k e] & Hin & Hm). simpl in Hm.
        destruct (count_forEach_cases (toLowerCase url) (collection this))
          as [[_ Hnone]|(k' & e' & Hin' & HL & ->)].
        -- specialize (Hnone _ Hin). unfold has_longUrl in Hnone.
           simpl in Hnone. congruence.
        -- exists (k', e'). simpl. rewrite HL, String.eqb_refl. auto.
      * intros Hnone. now rewrite (count_forEach_no_match _ _ Hnone).
Qed.

(** * Short URLs and their resolution *)

Lemma scheme_of_valid (u : string) :
  _urlSyntaxError u = Normal None ->
  nth 0 (split (toLowerCase u)) "" = "http:"
  \/ nth 0 (split (toLowerCase u)) "" = "https:".
Proof.
  intros Hv. apply valid_prefix in Hv.
  destruct (split_scheme _ Hv) as (scheme & rest & Hs & _ & ->). exact Hs.
Qed.

Lemma short_url_split (scheme domain key : string) :
  scheme = "http:" \/ scheme = "https:" ->
  includes "/" domain = false -> includes "/" key = false ->
  split (short_url scheme domain key) = [scheme; ""; domain; key].
Proof.
  intros Hs Hd Hk. unfold short_url.
  change (scheme ++ "//" ++ domain ++ "/" ++ key)
    with (scheme ++ String "/" ("" ++ String "/" (domain ++ String "/" key))).
  rewrite split_app_slash by (destruct Hs; subst; reflexivity).
  rewrite split_app_slash by reflexivity.
  rewrite split_app_slash by assumption.
  now rewrite split_no_slash by assumption.
Qed.

Lemma short_url_prefix (scheme domain key : string) :
  scheme = "http:" \/ scheme = "https:" ->
  startsWith "http://" (toLowerCase (short_url scheme domain key))
  || startsWith "https://" (toLowerCase (short_url scheme domain key)) = true.
Proof.
  intros Hs. unfold short_url.
  change (scheme ++ "//" ++ domain ++ "/" ++ key)
    with (scheme ++ String "/" ("" ++ String "/" (domain ++ String "/" key))).
  rewrite !toLowerCase_app_slash, toLowerCase_empty.
  destruct Hs as [->| ->]; now rewrite toLowerCase_ascii.
Qed.

Lemma domain_ok_parts (domain : string) :
  domain_ok domain = true ->
  includes "/" domain = false /\ includes "." domain = true
  /\ toLowerCase domain = domain.
Proof.
  unfold domain_ok. intros H.
  apply andb_true_iff in H as [H H3]. apply andb_true_iff in H as [H1 H2].
  apply negb_true_iff in H1. apply String.eqb_eq in H3. auto.
Qed.

(** Under a well-formed domain the composed short URL is valid, is
    recognised as the instance's own, and carries the key as its alias. *)
Lemma short_url_recognised (this : UrlShortener) (scheme key : string) :
  domain_ok (baseUrl this) = true ->
  scheme = "http:" \/ scheme = "https:" ->
  includes "/" key = false ->
  _urlSyntaxError (short_url scheme (baseUrl this) key) = Normal None
  /\ _isSameOrigin this (short_url scheme (baseUrl this) key) = true
  /\ nth_error (split (short_url scheme (baseUrl this) key)) 3 = Some key.
Proof.
  intros Hd Hs Hk. destruct (domain_ok_parts _ Hd) as (Hslash & Hdot & Hlow).
  pose proof (short_url_split scheme (baseUrl this) key Hs Hslash Hk) as Hsplit.
  repeat split.
  - rewrite _urlSyntaxError_spec. unfold spec_url_syntax_error, authority.
    rewrite (short_url_prefix _ _ _ Hs), Hsplit. simpl. rewrite Hdot.
    destruct (baseUrl this); [discriminate|reflexivity].
  - apply _isSameOrigin_parts. rewrite split_toLowerCase, Hsplit. simpl.
    now rewrite Hlow.
  - now rewrite Hsplit.
Qed.

Lemma query_hit (this : UrlShortener) (s key : string) (e : Element.t) :
  _urlSyntaxError s = Normal None ->
  _isSameOrigin this s = true ->
  nth_error (split s) 3 = Some key ->
  map_get key (collection this) = Some e ->
  truthy (Element.longUrl e) = true ->
  Element.active e = true ->
  query s this
  = Normal (Value (VStr (Element.longUrl e)),
            set_collection this
              (map_set key (Element.with_count (Element.count e + 1) e)
                 (collection this))).
Proof.
  intros Hv Ho Hk Hget Ht Ha. unfold query.
  rewrite Hv, Ho, Hk. cbn [negb get]. now rewrite Hget, Ht, Ha.
Qed.

Lemma query_miss (this : UrlShortener) (s key : string) :
  _urlSyntaxError s = Normal None ->
  _isSameOrigin this s = true ->
  nth_error (split s) 3 = Some key ->
  match map_get key (collection this) with
  | Some e => Element.active e = false
  | None => True
  end ->
  query s this
  = Normal (Error "NOT_FOUND" ("NOT_FOUND: " ++ s ++ " not found"), this).
Proof.
  intros Hv Ho Hk Hget. unfold query.
  rewrite Hv, Ho, Hk. cbn [negb get].
  destruct (map_get key (collection this)) as [e|]; [|reflexivity].
  now rewrite Hget, andb_false_r.
Qed.

Lemma map_get_visit (p : Element.t -> bool) (g : Element.t -> Element.t)
  (k : string) (m : Map) :
  map_get k (List.map (visit p g) m)
  = option_map (fun e => if p e then g e else e) (map_get k m).
Proof.
  induction m as [|[k' e'] m IH]; simpl; [reflexivity|].
  unfold visit at 1. simpl.
  destruct (p e') eqn:Hp; simpl; destruct (String.eqb k' k); simpl; auto;
    now rewrite Hp.
Qed.

(** C1, as amended: when the configured domain has no slash, has a dot and
    is left as it is by [toLowerCase], [add] of a valid URL that is not
    same-origin yields a short URL on which [query] then succeeds with the
    lower-cased URL. *)
Theorem add_then_query (domain : string) (this : UrlShortener) (rnd u : string) :
  domain_ok domain = true ->
  reachable domain this ->
  random36 rnd = true ->
  _urlSyntaxError u = Normal None ->
  _isSameOrigin this u = false ->
  exists short this' this'',
    add rnd u this = Normal (Value (VStr short), this')
    /\ query short this' = Normal (Value (VStr (toLowerCase u)), this'').
Proof.
  intros Hdom Hreach Hrnd Hv Ho. apply reachable_wf in Hreach.
  pose proof Hreach as [Hd Hnd Hks Hst]. subst domain.
  pose proof (scheme_of_valid _ Hv) as Hs.
  pose proof (proj2 (valid_toLowerCase u) Hv) as HvL.
  rewrite (add_valid this rnd u Hnd Hv Ho).
  set (lower := toLowerCase u) in *.
  set (m := List.map (visit (has_longUrl lower) (Element.with_active true))
              (collection this)).
  assert (Hfresh :
    exists this'',
      query (short_url (nth 0 (split lower) "") (baseUrl this) (_generateHash rnd))
        (set_collection this
           (map_set (_generateHash rnd) (Element.mk lower 0 true) m))
      = Normal (Value (VStr lower), this'')).
  { destruct (short_url_recognised this _ (_generateHash rnd) Hdom Hs
                (generateHash_no_slash _ Hrnd)) as (H1 & H2 & H3).
    eexists.
    apply (query_hit (set_collection this _) _ (_generateHash rnd)
             (Element.mk lower 0 true)); auto.
    - apply map_get_set_same.
    - now apply valid_truthy. }
  destruct (last_key lower (collection this)) as [key|] eqn:Hlast.
  - destruct (truthy key) eqn:Hkey.
    + destruct (last_key_Some _ _ _ Hlast) as (e & Hin & HL).
      assert (Hkslash : includes "/" key = false).
      { rewrite Forall_forall in Hks. apply Hks. eapply In_keys; eauto. }
      destruct (short_url_recognised this _ key Hdom Hs Hkslash)
        as (H1 & H2 & H3).
      eexists _, _, _. split; [reflexivity|].
      rewrite (query_hit (set_collection this m) _ key
                 (Element.with_active true e)); auto.
      * simpl. now rewrite HL.
      * simpl. unfold m. rewrite map_get_visit, (In_map_get _ _ _ Hnd Hin).
        simpl. unfold has_longUrl. now rewrite HL, String.eqb_refl.
      * simpl. rewrite HL. now apply valid_truthy.
    + destruct Hfresh as [this'' Hq]. eexists _, _, _. split; [reflexivity|].
      exact Hq.
  - destruct Hfresh as [this'' Hq]. eexists _, _, _. split; [reflexivity|].
    exact Hq.
Qed.

(** * One entry per long URL, as long as no alias is empty *)

Lemma unique_visit (p : Element.t -> bool) (g : Element.t -> Element.t) (m : Map) :
  (forall e, Element.longUrl (g e) = Element.longUrl e) ->
  unique_longUrl m -> unique_longUrl (List.map (visit p g) m).
Proof.
  intros Hg Hu k1 e1 k2 e2 H1 H2 HL.
  apply in_map_iff in H1 as ([k1' e1'] & E1 & H1).
  apply in_map_iff in H2 as ([k2' e2'] & E2 & H2).
  unfold visit in E1, E2. simpl in E1, E2.
  assert (k1' = k1 /\ Element.longUrl e1' = Element.longUrl e1) as [<- L1].
  { destruct (p e1'); injection E1 as <- <-; auto. }
  assert (k2' = k2 /\ Element.longUrl e2' = Element.longUrl e2) as [<- L2].
  { destruct (p e2'); injection E2 as <- <-; auto. }
  apply (Hu _ _ _ _ H1 H2). congruence.
Qed.

Lemma unique_map_set_same (k : string) (v e : Element.t) (m : Map) :
  In (k, e) m -> Element.longUrl v = Element.longUrl e ->
  unique_longUrl m -> unique_longUrl (map_set k v m).
Proof.
  intros Hin Hv Hu k1 e1 k2 e2 H1 H2 HL.
  apply In_map_set in H1 as [[= -> ->]|H1];
    apply In_map_set in H2 as [[= -> ->]|H2]; auto.
  - apply (Hu _ _ _ _ Hin H2). congruence.
  - apply (Hu _ _ _ _ H1 Hin). congruence.
  - apply (Hu _ _ _ _ H1 H2). congruence.
Qed.

Lemma unique_map_set_new (k : string) (v : Element.t) (m : Map) :
  (forall entry, In entry m -> Element.longUrl (snd entry) <> Element.longUrl v) ->
  unique_longUrl m -> unique_longUrl (map_set k v m).
Proof.
  intros Hnew Hu k1 e1 k2 e2 H1 H2 HL.
  apply In_map_set in H1 as [[= -> ->]|H1];
    apply In_map_set in H2 as [[= -> ->]|H2]; auto.
  - exfalso. apply (Hnew _ H2). simpl. congruence.
  - exfalso. apply (Hnew _ H1). simpl. congruence.
  - apply (Hu _ _ _ _ H1 H2). congruence.
Qed.

Lemma truthy_keys_visit (p : Element.t -> bool) (g : Element.t -> Element.t)
  (m : Map) :
  truthy_keys m -> truthy_keys (List.map (visit p g) m).
Proof. unfold truthy_keys. now rewrite keys_visit. Qed.

Lemma truthy_keys_map_set (k : string) (v : Element.t) (m : Map) :
  (In k (keys m) \/ truthy k = true) ->
  truthy_keys m -> truthy_keys (map_set k v m).
Proof.
  unfold truthy_keys. intros Hk H. rewrite keys_map_set.
  destruct (in_dec string_dec k (keys m)) as [|Hnotin]; [assumption|].
  apply Forall_app. split; [assumption|]. constructor; [|constructor].
  destruct Hk; [contradiction|assumption].
Qed.

Lemma good_visit (domain : string) (this : UrlShortener)
  (p : Element.t -> bool) (g : Element.t -> Element.t) :
  (forall e, Element.longUrl (g e) = Element.longUrl e) ->
  good domain this ->
  good domain (set_collection this (List.map (visit p g) (collection this))).
Proof.
  intros Hg (Hwf & Ht & Hu). split; [|split].
  - now apply wf_visit.
  - now apply truthy_keys_visit.
  - now apply unique_visit.
Qed.

Lemma good_update (domain : string) (this : UrlShortener)
  (k : string) (v e : Element.t) :
  map_get k (collection this) = Some e ->
  Element.longUrl v = Element.longUrl e ->
  good domain this ->
  good domain (set_collection this (map_set k v (collection this))).
Proof.
  intros Hget Hv (Hwf & Ht & Hu).
  destruct (wf_lookup _ _ _ _ Hwf Hget) as [Hk He].
  pose proof (map_get_In _ _ _ Hget) as Hin.
  split; [|split].
  - apply wf_map_set; auto. unfold stored_ok in *. now rewrite Hv.
  - apply truthy_keys_map_set; auto. left. eapply In_keys; eauto.
  - eapply unique_map_set_same; eauto.
Qed.

Lemma good_add (domain : string) (this this' : UrlShortener) rnd u r :
  nonempty_hash rnd = true -> good domain this ->
  add rnd u this = Normal (r, this') -> good domain this'.
Proof.
  intros Hrnd Hgood. pose proof Hgood as (Hwf & Ht & Hu).
  pose proof Hwf as [Hd Hnd Hks Hs].
  unfold nonempty_hash in Hrnd. apply andb_true_iff in Hrnd as [Hrnd Hne].
  destruct (_urlSyntaxError u) as [[bad|]|] eqn:Hv;
    [unfold add; rewrite Hv; congruence| |unfold add; rewrite Hv; discriminate].
  destruct (_isSameOrigin this u) eqn:Ho;
    [unfold add; rewrite Hv, Ho; congruence|].
  rewrite (add_valid this rnd u Hnd Hv Ho).
  pose proof (good_visit domain this (has_longUrl (toLowerCase u))
                (Element.with_active true) (fun _ => eq_refl) Hgood) as Hm.
  destruct (last_key (toLowerCase u) (collection this)) as [key|] eqn:Hlast.
  - destruct (last_key_Some _ _ _ Hlast) as (e & Hin & _).
    assert (Hkey : truthy key = true).
    { unfold truthy_keys in Ht. rewrite Forall_forall in Ht. apply Ht.
      eapply In_keys; eauto. }
    rewrite Hkey. intros [= <- <-]. exact Hm.
  - intros [= <- <-]. destruct Hm as (Hwf' & Ht' & Hu').
    split; [|split].
    + apply (wf_map_set domain (set_collection this _)); auto.
      * now apply generateHash_no_slash.
      * now apply (stored_ok_new domain this).
    + apply truthy_keys_map_set; auto.
    + apply unique_map_set_new; auto.
      intros entry Hin. simpl.
      apply in_map_iff in Hin as ([k e] & <- & Hin).
      pose proof (last_key_None _ _ Hlast _ Hin) as Hno.
      unfold has_longUrl in Hno. simpl in Hno. apply String.eqb_neq in Hno.
      unfold visit. simpl. unfold has_longUrl.
      destruct (String.eqb (Element.longUrl e) (toLowerCase u)); assumption.
Qed.

Lemma good_query (domain : string) (this this' : UrlShortener) s r :
  good domain this -> query s this = Normal (r, this') -> good domain this'.
Proof.
  intros Hgood. unfold query.
  destruct (_urlSyntaxError s) as [[bad|]|]; [congruence| |discriminate].
  destruct (negb (_isSameOrigin this s)); [congruence|].
  destruct (nth_error (split s) 3) as [key|]; cbn [get]; [|congruence].
  destruct (map_get key (collection this)) as [e|] eqn:Hget; [|congruence].
  destruct (truthy (Element.longUrl e) && Element.active e); [|congruence].
  intros [= <- <-]. eapply good_update; eauto.
Qed.

Lemma good_remove (domain : string) (this this' : UrlShortener) u r :
  good domain this -> remove u this = Normal (r, this') -> good domain this'.
Proof.
  intros Hgood. pose proof Hgood as (Hwf & _). pose proof Hwf as [_ Hnd _ _].
  unfold remove.
  destruct (_urlSyntaxError u) as [[bad|]|]; [congruence| |discriminate].
  rewrite (remove_forEach_spec _ _ Hnd).
  pose proof (good_visit domain this (has_longUrl (toLowerCase u))
                (Element.with_active false) (fun _ => eq_refl) Hgood) as Hm.
  assert (Hlong : forall b : bool,
             (if b
              then Normal (Empty, set_collection this
                     (List.map (visit (has_longUrl (toLowerCase u))
                                  (Element.with_active false)) (collection this)))
              else Normal (_notFound, set_collection this
                     (List.map (visit (has_longUrl (toLowerCase u))
                                  (Element.with_active false)) (collection this))))
             = Normal (r, this') -> good domain this').
  { intros [|] [= <- <-]; assumption. }
  destruct (_isSameOrigin this u); [|apply Hlong].
  destruct (nth_error (split u) 3) as [key|]; cbn [get]; [|apply Hlong].
  destruct (map_get key (collection this)) as [e|] eqn:Hget; [|apply Hlong].
  intros [= <- <-]. eapply good_update; eauto.
Qed.

Lemma good_count (domain : string) (this this' : UrlShortener) u r :
  good domain this -> count u this = Normal (r, this') -> good domain this'.
Proof.
  intros Hgood. unfold count.
  destruct (_urlSyntaxError u) as [[bad|]|]; [congruence| |discriminate].
  destruct (_isSameOrigin this u);
    [destruct (get (nth_error (split u) 3) (collection this))|];
    destruct (count_forEach (toLowerCase u) (collection this)); congruence.
Qed.

(** Every history without an empty alias keeps one entry per long URL. *)
Lemma reachable_nonempty_good (domain : string) (this : UrlShortener) :
  reachable_nonempty domain this -> good domain this.
Proof.
  intros H. induction H as [|c this r this' _ IH Hc Hi].
  - split; [apply wf_new|split]; [constructor|]. intros k1 e1 k2 e2 [].
  - destruct c; simpl in *.
    + eapply good_add; eauto.
    + eapply good_query; eauto.
    + eapply good_count; eauto.
    + eapply good_remove; eauto.
Qed.

(** Where C3 does hold: in a history without an empty alias, [add] twice
    gives the same short URL and the map keeps one entry for the URL. *)
Lemma add_twice_same_alias (domain : string) (this : UrlShortener)
  (rnd1 rnd2 u : string) :
  reachable_nonempty domain this ->
  nonempty_hash rnd1 = true ->
  _urlSyntaxError u = Normal None ->
  _isSameOrigin this u = false ->
  exists key this1 this2,
    let short :=
      short_url (nth 0 (split (toLowerCase u)) "") (baseUrl this) key in
    add rnd1 u this = Normal (Value (VStr short), this1)
    /\ add rnd2 u this1 = Normal (Value (VStr short), this2)
    /\ unique_longUrl (collection this2)
    /\ exists e, map_get key (collection this2) = Some e
                 /\ Element.longUrl e = toLowerCase u.
Proof.
  intros Hreach Hrnd Hv Ho. apply reachable_nonempty_good in Hreach.
  destruct (add rnd1 u this) as [[r1 this1]|] eqn:Hadd1.
  2:{ destruct (invoke_total (Add rnd1 u) this) as (r & t & H).
      simpl in H. congruence. }
  pose proof (good_add _ _ _ _ _ _ Hrnd Hreach Hadd1) as Hgood1.
  destruct Hreach as ([Hd Hnd Hks Hs] & Ht & Hu).
  rewrite (add_valid this rnd1 u Hnd Hv Ho) in Hadd1.
  set (lower := toLowerCase u) in *.
  set (m := List.map (visit (has_longUrl lower) (Element.with_active true))
              (collection this)) in *.
  (* the key under which the URL sits after the first call *)
  assert (Hfirst : exists key e,
             r1 = Value (VStr (short_url (nth 0 (split lower) "") (baseUrl this) key))
             /\ map_get key (collection this1) = Some e
             /\ Element.longUrl e = lower /\ baseUrl this1 = baseUrl this).
  { destruct (last_key lower (collection this)) as [key|] eqn:Hlast.
    - destruct (last_key_Some _ _ _ Hlast) as (e & Hin & HL).
      assert (Hkey : truthy key = true).
      { unfold truthy_keys in Ht. rewrite Forall_forall in Ht. apply Ht.
        eapply In_keys; eauto. }
      rewrite Hkey in Hadd1. injection Hadd1 as <- <-.
      exists key, (Element.with_active true e). repeat split; auto.
      simpl. unfold m. rewrite map_get_visit, (In_map_get _ _ _ Hnd Hin).
      simpl. unfold has_longUrl. now rewrite HL, String.eqb_refl.
    - injection Hadd1 as <- <-.
      exists (_generateHash rnd1), (Element.mk lower 0 true).
      repeat split; auto. simpl. apply map_get_set_same. }
  destruct Hfirst as (key & e & -> & Hget & HL & Hb).
  destruct Hgood1 as (Hwf1 & Ht1 & Hu1). pose proof Hwf1 as [_ Hnd1 _ _].
  assert (Ho1 : _isSameOrigin this1 u = false).
  { unfold _isSameOrigin in *. now rewrite Hb. }
  exists key. eexists this1, _. cbn zeta.
  rewrite (add_valid this1 rnd2 u Hnd1 Hv Ho1). fold lower.
  destruct (last_key_found lower _ _ _ (map_get_In _ _ _ Hget) HL) as [k' Hlast].
  rewrite Hlast.
  destruct (last_key_Some _ _ _ Hlast) as (e' & Hin' & HL').
  assert (k' = key) as ->.
  { apply (Hu1 _ _ _ _ Hin' (map_get_In _ _ _ Hget)). congruence. }
  assert (Hkey : truthy key = true).
  { unfold truthy_keys in Ht1. rewrite Forall_forall in Ht1. apply Ht1.
    eapply In_keys; eauto. }
  rewrite Hkey, Hb. repeat split.
  - simpl. now apply unique_visit.
  - exists (Element.with_active true e). simpl.
    rewrite map_get_visit, Hget. simpl. unfold has_longUrl.
    now rewrite HL, String.eqb_refl.
Qed.

(** * What each method does to one entry *)

Lemma add_keeps_entry (this this' : UrlShortener) (rnd u key : string)
  (e : Element.t) (r : result) :
  NoDup (keys (collection this)) ->
  map_get key (collection this) = Some e ->
  draws rnd u this <> Some key ->
  add rnd u this = Normal (r, this') ->
  exists e',
    map_get key (collection this') = Some e'
    /\ Element.longUrl e' = Element.longUrl e
    /\ Element.count e' = Element.count e
    /\ (e' = e \/ (Element.active e' = true /\ Element.longUrl e = toLowerCase u)).
Proof.
  intros Hnd Hget Hne. unfold draws in Hne.
  destruct (_urlSyntaxError u) as [[bad|]|] eqn:Hv;
    [unfold add; rewrite Hv; intros [= <- <-]; eauto 6
    | |unfold add; rewrite Hv; discriminate].
  destruct (_isSameOrigin this u) eqn:Ho;
    [unfold add; rewrite Hv, Ho; intros [= <- <-]; eauto 6|].
  rewrite (add_valid this rnd u Hnd Hv Ho).
  set (lower := toLowerCase u) in *.
  set (m := List.map (visit (has_longUrl lower) (Element.with_active true))
              (collection this)).
  assert (Hm : exists e',
             map_get key m = Some e'
             /\ Element.longUrl e' = Element.longUrl e
             /\ Element.count e' = Element.count e
             /\ (e' = e \/ (Element.active e' = true
                            /\ Element.longUrl e = lower))).
  { unfold m. rewrite map_get_visit, Hget. simpl. unfold has_longUrl.
    destruct (String.eqb_spec (Element.longUrl e) lower); eauto 7. }
  assert (Hfresh : _generateHash rnd <> key ->
           exists e',
             map_get key (map_set (_generateHash rnd)
                            (Element.mk lower 0 true) m) = Some e'
             /\ Element.longUrl e' = Element.longUrl e
             /\ Element.count e' = Element.count e
             /\ (e' = e \/ (Element.active e' = true
                            /\ Element.longUrl e = lower))).
  { intros Hk. now rewrite map_get_set_other. }
  destruct (last_key lower (collection this)) as [k|];
    [destruct (truthy k)|]; intros [= <- <-]; try assumption;
    apply Hfresh; congruence.
Qed.

Lemma query_keeps_entry (this this' : UrlShortener) (s key : string)
  (e : Element.t) (r : result) :
  map_get key (collection this) = Some e ->
  query s this = Normal (r, this') ->
  exists e',
    map_get key (collection this') = Some e'
    /\ Element.longUrl e' = Element.longUrl e
    /\ Element.active e' = Element.active e
    /\ (Element.count e' = Element.count e
        \/ (Element.count e' = Element.count e + 1
            /\ alias s = Some key
            /\ r = Value (VStr (Element.longUrl e))
            /\ Element.active e = true)).
Proof.
  intros Hget. unfold query, alias.
  destruct (_urlSyntaxError s) as [[bad|]|];
    [intros [= <- <-]; eauto 6| |discriminate].
  destruct (negb (_isSameOrigin this s)); [intros [= <- <-]; eauto 6|].
  destruct (nth_error (split s) 3) as [k|]; cbn [get];
    [|intros [= <- <-]; eauto 6].
  destruct (map_get k (collection this)) as [e0|] eqn:Hget0;
    [|intros [= <- <-]; eauto 6].
  destruct (truthy (Element.longUrl e0) && Element.active e0) eqn:Hact;
    [|intros [= <- <-]; eauto 6].
  intros [= <- <-]. simpl.
  destruct (String.eqb_spec k key) as [->|Hne].
  - rewrite map_get_set_same. rewrite Hget in Hget0. injection Hget0 as <-.
    apply andb_true_iff in Hact as [_ Hact].
    eexists. split; [reflexivity|]. simpl. auto 8.
  - rewrite map_get_set_other by assumption. eauto 6.
Qed.

(** [draws] is exact: when it names an alias, [add] succeeds and leaves under
    that alias a new entry for the URL, with count zero, whatever was there. *)
Lemma draws_stores (this : UrlShortener) (rnd u key : string) :
  NoDup (keys (collection this)) ->
  draws rnd u this = Some key ->
  key = _generateHash rnd
  /\ exists short this',
      add rnd u this = Normal (Value (VStr short), this')
      /\ map_get key (collection this')
         = Some (Element.mk (toLowerCase u) 0 true).
Proof.
  intros Hnd. unfold draws.
  destruct (_urlSyntaxError u) as [[bad|]|] eqn:Hv; try discriminate.
  destruct (_isSameOrigin this u) eqn:Ho; [discriminate|].
  rewrite (add_valid this rnd u Hnd Hv Ho).
  destruct (last_key (toLowerCase u) (collection this)) as [k|];
    [destruct (truthy k); [discriminate|]|];
    intros [= <-]; (split; [reflexivity|]); eexists _, _;
    (split; [reflexivity|]); simpl; apply map_get_set_same.
Qed.

Lemma count_keeps_store (this this' : UrlShortener) (u : string) (r : result) :
  count u this = Normal (r, this') -> this' = this.
Proof.
  unfold count.
  destruct (_urlSyntaxError u) as [[bad|]|]; [congruence| |discriminate].
  destruct (_isSameOrigin this u);
    [destruct (get (nth_error (split u) 3) (collection this))|];
    destruct (count_forEach (toLowerCase u) (collection this)); congruence.
Qed.

Lemma remove_keeps_entry (this this' : UrlShortener) (u key : string)
  (e : Element.t) (r : result) :
  NoDup (keys (collection this)) ->
  map_get key (collection this) = Some e ->
  remove u this = Normal (r, this') ->
  exists e',
    map_get key (collection this') = Some e'
    /\ Element.longUrl e' = Element.longUrl e
    /\ Element.count e' = Element.count e
    /\ (e' = e \/ Element.active e' = false).
Proof.
  intros Hnd Hget. unfold remove.
  destruct (_urlSyntaxError u) as [[bad|]|];
    [intros [= <- <-]; eauto 6| |discriminate].
  rewrite (remove_forEach_spec _ _ Hnd).
  set (m := List.map (visit (has_longUrl (toLowerCase u))
                        (Element.with_active false)) (collection this)).
  assert (Hm : exists e',
             map_get key m = Some e'
             /\ Element.longUrl e' = Element.longUrl e
             /\ Element.count e' = Element.count e
             /\ (e' = e \/ Element.active e' = false)).
  { unfold m. rewrite map_get_visit, Hget. simpl.
    destruct (has_longUrl (toLowerCase u) e); eauto 6. }
  assert (Hlong : forall b : bool,
             (if b then Normal (Empty, set_collection this m)
              else Normal (_notFound, set_collection this m))
             = Normal (r, this') ->
             exists e',
               map_get key (collection this') = Some e'
               /\ Element.longUrl e' = Element.longUrl e
               /\ Element.count e' = Element.count e
               /\ (e' = e \/ Element.active e' = false)).
  { intros [|] [= <- <-]; assumption. }
  destruct (_isSameOrigin this u); [|apply Hlong].
  destruct (nth_error (split u) 3) as [k|]; cbn [get]; [|apply Hlong].
  destruct (map_get k (collection this)) as [e0|] eqn:Hget0; [|apply Hlong].
  intros [= <- <-]. simpl.
  destruct (String.eqb_spec k key) as [->|Hne].
  - rewrite map_get_set_same. rewrite Hget in Hget0. injection Hget0 as <-.
    eexists. split; [reflexivity|]. simpl. auto.
  - rewrite map_get_set_other by assumption. eauto 6.
Qed.

(** [count] by either form of the URL of an entry. *)
Lemma count_by_alias (this : UrlShortener) (s key : string) (e : Element.t) :
  _urlSyntaxError s = Normal None ->
  _isSameOrigin this s = true ->
  alias s = Some key ->
  map_get key (collection this) = Some e ->
  count s this = Normal (Value (VNum (Element.count e)), this).
Proof.
  intros Hv Ho Hk Hget. unfold count. unfold alias in Hk.
  rewrite Hv, Ho, Hk. cbn [get]. now rewrite Hget.
Qed.

Lemma stored_not_same_origin (domain : string) (this : UrlShortener)
  (e : Element.t) :
  baseUrl this = domain -> stored_ok domain e ->
  _isSameOrigin this (Element.longUrl e) = false.
Proof.
  intros Hd (_ & Hlow & Hne).
  destruct (_isSameOrigin this (Element.longUrl e)) eqn:Ho; [|reflexivity].
  apply _isSameOrigin_parts in Ho. rewrite Hlow, Hd in Ho. contradiction.
Qed.

Lemma count_by_longUrl (domain : string) (this : UrlShortener) (key : string)
  (e : Element.t) :
  good domain this ->
  map_get key (collection this) = Some e ->
  count (Element.longUrl e) this = Normal (Value (VNum (Element.count e)), this).
Proof.
  intros (Hwf & _ & Hu) Hget. pose proof Hwf as [Hd Hnd _ _].
  destruct (wf_lookup _ _ _ _ Hwf Hget) as [_ He].
  pose proof He as (Hv & Hlow & _).
  unfold count.
  rewrite Hv, (stored_not_same_origin _ _ _ Hd He), Hlow.
  pose proof (map_get_In _ _ _ Hget) as Hin.
  destruct (count_forEach_cases (Element.longUrl e) (collection this))
    as [[_ Hnone]|(k' & e' & Hin' & HL & ->)].
  - specialize (Hnone _ Hin). unfold has_longUrl in Hnone. simpl in Hnone.
    now rewrite String.eqb_refl in Hnone.
  - assert (k' = key) as -> by (apply (Hu _ _ _ _ Hin' Hin); assumption).
    rewrite (In_map_get _ _ _ Hnd Hin') in Hget. now injection Hget as ->.
Qed.

(** * The count of an entry over queries, removal and a new [add] *)

Lemma _isSameOrigin_baseUrl (this this' : UrlShortener) (url : string) :
  baseUrl this' = baseUrl this ->
  _isSameOrigin this' url = _isSameOrigin this url.
Proof. intros H. unfold _isSameOrigin. now rewrite H. Qed.

Lemma queries_count (domain : string) (s key : string) (n : nat) :
  forall (this : UrlShortener) (e : Element.t),
    good domain this ->
    _urlSyntaxError s = Normal None ->
    _isSameOrigin this s = true ->
    alias s = Some key ->
    map_get key (collection this) = Some e ->
    Element.active e = true ->
    exists this_n,
      queries n s (Element.longUrl e) this = Some this_n
      /\ good domain this_n
      /\ baseUrl this_n = baseUrl this
      /\ map_get key (collection this_n)
         = Some (Element.mk (Element.longUrl e) (Element.count e + n) true).
Proof.
  induction n as [|n IH]; intros this e Hgood Hv Ho Hk Hget Ha.
  - exists this. split; [reflexivity|]. split; [assumption|].
    split; [reflexivity|].
    rewrite Hget, Nat.add_0_r, <- Ha. now destruct e.
  - pose proof Hgood as (Hwf & _).
    destruct (wf_lookup _ _ _ _ Hwf Hget) as (_ & Hve & _).
    cbn [queries].
    rewrite (query_hit this s key e Hv Ho Hk Hget (valid_truthy _ Hve) Ha).
    rewrite String.eqb_refl.
    destruct (IH (set_collection this
                    (map_set key (Element.with_count (Element.count e + 1) e)
                       (collection this)))
                 (Element.with_count (Element.count e + 1) e))
      as (this_n & Hq & Hg & Hb & Hget_n); auto.
    + eapply good_update; eauto.
    + simpl. apply map_get_set_same.
    + exists this_n. simpl in *. split; [assumption|]. split; [assumption|].
      split; [assumption|].
      rewrite Hget_n. f_equal. f_equal. lia.
Qed.

(** [remove], by either form of the URL, deactivates the entry. *)
Lemma remove_entry (domain : string) (this : UrlShortener) (s key x : string)
  (e : Element.t) :
  good domain this ->
  _urlSyntaxError s = Normal None ->
  _isSameOrigin this s = true ->
  alias s = Some key ->
  map_get key (collection this) = Some e ->
  x = s \/ x = Element.longUrl e ->
  exists this_r,
    remove x this = Normal (Empty, this_r)
    /\ good domain this_r
    /\ baseUrl this_r = baseUrl this
    /\ map_get key (collection this_r) = Some (Element.with_active false e).
Proof.
  intros Hgood Hv Ho Hk Hget [->| ->].
  - unfold remove. unfold alias in Hk. rewrite Hv, Ho, Hk. cbn [get].
    rewrite Hget. eexists. split; [reflexivity|]. split; [|split].
    + eapply good_update; eauto.
    + reflexivity.
    + simpl. apply map_get_set_same.
  - pose proof Hgood as (Hwf & _). pose proof Hwf as [Hd Hnd _ _].
    destruct (wf_lookup _ _ _ _ Hwf Hget) as [_ He].
    pose proof He as (Hve & Hlow & _).
    unfold remove.
    rewrite Hve, (stored_not_same_origin _ _ _ Hd He), Hlow.
    destruct (remove_forEach (Element.longUrl e) (collection this))
      as [m b] eqn:E.
    pose proof (remove_forEach_spec (Element.longUrl e) _ Hnd) as Hspec.
    rewrite E in Hspec. injection Hspec as -> Hb.
    destruct b.
    + eexists. split; [reflexivity|]. split; [|split].
      * now apply good_visit.
      * reflexivity.
      * simpl. rewrite map_get_visit, Hget. simpl. unfold has_longUrl.
        now rewrite String.eqb_refl.
    + destruct (remove_forEach_false (Element.longUrl e) (collection this))
        as [_ Hnone]; [now rewrite E|].
      specialize (Hnone _ (map_get_In _ _ _ Hget)).
      unfold has_longUrl in Hnone. simpl in Hnone.
      now rewrite String.eqb_refl in Hnone.
Qed.

(** [add] of the long URL of an entry with a non-empty key sets it active
    and draws no alias. *)
Lemma add_again (domain : string) (this : UrlShortener) (rnd key : string)
  (e : Element.t) :
  good domain this ->
  map_get key (collection this) = Some e ->
  exists this_a,
    add rnd (Element.longUrl e) this
    = Normal (Value (VStr (short_url (nth 0 (split (Element.longUrl e)) "")
                              (baseUrl this) key)), this_a)
    /\ good domain this_a
    /\ baseUrl this_a = baseUrl this
    /\ map_get key (collection this_a) = Some (Element.with_active true e).
Proof.
  intros Hgood Hget. pose proof Hgood as (Hwf & Ht & Hu).
  pose proof Hwf as [Hd Hnd _ _].
  destruct (wf_lookup _ _ _ _ Hwf Hget) as [_ He].
  pose proof He as (Hve & Hlow & _).
  rewrite (add_valid this rnd _ Hnd Hve (stored_not_same_origin _ _ _ Hd He)).
  rewrite Hlow.
  pose proof (map_get_In _ _ _ Hget) as Hin.
  destruct (last_key_found _ _ _ _ Hin eq_refl) as [k' Hlast].
  rewrite Hlast.
  destruct (last_key_Some _ _ _ Hlast) as (e' & Hin' & HL').
  assert (k' = key) as -> by (apply (Hu _ _ _ _ Hin' Hin); assumption).
  assert (Hkey : truthy key = true).
  { unfold truthy_keys in Ht. rewrite Forall_forall in Ht. apply Ht.
    eapply In_keys; eauto. }
  rewrite Hkey. eexists. split; [reflexivity|]. split; [|split].
  - now apply good_visit.
  - reflexivity.
  - simpl. rewrite map_get_visit, Hget. simpl. unfold has_longUrl.
    now rewrite String.eqb_refl.
Qed.

(** C4, as amended.  (1) No call lowers or resets the count of an entry, or
    changes its long URL, and only a successful [query] of its alias raises
    the count, by one - provided the call is not an [add] that stores a new
    entry under the alias of the entry ([draws]).  (2) In a history without
    an empty alias, after [n] successful queries of an active entry [count] answers, for the short
    and for the long URL, with [n] more than before, and still does after
    [remove] of either URL followed by [add] of the long URL. *)
Theorem hit_count_persists :
  (forall (domain : string) (this this' : UrlShortener) (c : call) (r : result)
          (key : string) (e : Element.t),
      reachable domain this ->
      map_get key (collection this) = Some e ->
      (forall rnd u, c = Add rnd u -> draws rnd u this <> Some key) ->
      invoke c this = Normal (r, this') ->
      exists e',
        map_get key (collection this') = Some e'
        /\ Element.longUrl e' = Element.longUrl e
        /\ (Element.count e' = Element.count e
            \/ (Element.count e' = Element.count e + 1
                /\ exists s, c = Query s /\ alias s = Some key
                             /\ r = Value (VStr (Element.longUrl e)))))
  /\ (forall (domain : string) (this : UrlShortener) (s key : string)
             (e : Element.t) (n : nat),
        reachable_nonempty domain this ->
        _urlSyntaxError s = Normal None ->
        _isSameOrigin this s = true ->
        alias s = Some key ->
        map_get key (collection this) = Some e ->
        Element.active e = true ->
        exists this_n,
          let total := Value (VNum (Element.count e + n)) in
          queries n s (Element.longUrl e) this = Some this_n
          /\ count s this_n = Normal (total, this_n)
          /\ count (Element.longUrl e) this_n = Normal (total, this_n)
          /\ forall x rnd,
              x = s \/ x = Element.longUrl e ->
              exists this_r short this_a,
                remove x this_n = Normal (Empty, this_r)
                /\ add rnd (Element.longUrl e) this_r
                   = Normal (Value (VStr short), this_a)
                /\ count s this_a = Normal (total, this_a)
                /\ count (Element.longUrl e) this_a = Normal (total, this_a)).
Proof.
  split.
  - intros domain this this' c r key e Hreach Hget Hfresh Hinv.
    apply reachable_wf in Hreach. pose proof Hreach as [_ Hnd _ _].
    destruct c as [rnd u|s|u|u]; simpl in Hinv.
    + destruct (add_keeps_entry _ _ _ _ _ _ _ Hnd Hget (Hfresh _ _ eq_refl) Hinv)
        as (e' & H1 & H2 & H3 & _). eauto 6.
    + destruct (query_keeps_entry _ _ _ _ _ _ Hget Hinv)
        as (e' & H1 & H2 & _ & [H3|(H3 & H4 & H5 & _)]); eauto 10.
    + apply count_keeps_store in Hinv. subst. eauto 6.
    + destruct (remove_keeps_entry _ _ _ _ _ _ Hnd Hget Hinv)
        as (e' & H1 & H2 & H3 & _). eauto 6.
  - intros domain this s key e n Hreach Hv Ho Hk Hget Ha.
    apply reachable_nonempty_good in Hreach.
    destruct (queries_count domain s key n this e Hreach Hv Ho Hk Hget Ha)
      as (this_n & Hq & Hgood_n & Hb_n & Hget_n).
    set (e_n := Element.mk (Element.longUrl e) (Element.count e + n) true) in *.
    assert (Ho_n : _isSameOrigin this_n s = true)
      by now rewrite (_isSameOrigin_baseUrl this this_n).
    exists this_n. cbn zeta. split; [exact Hq|]. split; [|split].
    + apply (count_by_alias this_n s key e_n); auto.
    + apply (count_by_longUrl domain this_n key e_n); auto.
    + intros x rnd Hx.
      destruct (remove_entry domain this_n s key x e_n Hgood_n Hv Ho_n Hk Hget_n Hx)
        as (this_r & Hrem & Hgood_r & Hb_r & Hget_r).
      destruct (add_again domain this_r rnd key _ Hgood_r Hget_r)
        as (this_a & Hadd & Hgood_a & Hb_a & Hget_a).
      exists this_r. eexists _, this_a. split; [exact Hrem|].
      split; [exact Hadd|]. split.
      * apply (count_by_alias this_a s key
                 (Element.with_active true (Element.with_active false e_n)));
          auto.
        rewrite (_isSameOrigin_baseUrl this_r this_a) by assumption.
        now rewrite (_isSameOrigin_baseUrl this_n this_r).
      * apply (count_by_longUrl domain this_a key
                 (Element.with_active true (Element.with_active false e_n))
                 Hgood_a Hget_a).
Qed.

(** * [remove] *)

Lemma remove_by_alias_as_map (this : UrlShortener) (key : string) (e : Element.t) :
  NoDup (keys (collection this)) ->
  map_get key (collection this) = Some e ->
  map_set key (Element.with_active false e) (collection this)
  = List.map (fun entry => if String.eqb (fst entry) key
                           then set_active false entry else entry)
      (collection this).
Proof.
  intros Hnd Hget. pose proof (map_get_In _ _ _ Hget) as Hin.
  rewrite map_set_as_map by (auto; eapply In_keys; eauto).
  apply map_ext_in. intros [k e0] Hin0. simpl.
  destruct (String.eqb_spec k key) as [->|]; [|reflexivity].
  rewrite (In_map_get _ _ _ Hnd Hin0) in Hget. now injection Hget as ->.
Qed.

Lemma removed_invoke (domain key longUrl : string) (c : call)
  (this this' : UrlShortener) (r : result) :
  removed domain key longUrl this ->
  quiet key longUrl this c = true ->
  invoke c this = Normal (r, this') ->
  removed domain key longUrl this'.
Proof.
  intros (Hwf & e & Hget & HL & Ha) Hq Hinv. pose proof Hwf as [_ Hnd _ _].
  split.
  - eapply wf_invoke; eauto. destruct c; simpl in *; auto.
    apply andb_true_iff in Hq as [Hq _]. now apply andb_true_iff in Hq as [Hq _].
  - destruct c as [rnd u|s|u|u]; simpl in Hinv, Hq.
    + apply andb_true_iff in Hq as [Hq Hkey].
      apply andb_true_iff in Hq as [_ Hurl].
      apply negb_true_iff in Hurl. apply String.eqb_neq in Hurl.
      assert (Hdraw : draws rnd u this <> Some key).
      { destruct (draws rnd u this) as [k|]; [|discriminate].
        apply negb_true_iff in Hkey. apply String.eqb_neq in Hkey. congruence. }
      destruct (add_keeps_entry _ _ _ _ _ _ _ Hnd Hget Hdraw Hinv)
        as (e' & H1 & H2 & _ & [->|[_ H4]]).
      * eauto.
      * congruence.
    + destruct (query_keeps_entry _ _ _ _ _ _ Hget Hinv)
        as (e' & H1 & H2 & H3 & _).
      exists e'. repeat split; congruence.
    + apply count_keeps_store in Hinv. subst. eauto.
    + destruct (remove_keeps_entry _ _ _ _ _ _ Hnd Hget Hinv)
        as (e' & H1 & H2 & _ & [->|H4]); eauto.
      exists e'. repeat split; congruence.
Qed.

Lemma removed_run (domain key longUrl : string) (cs : list call) :
  forall this this_m,
    removed domain key longUrl this ->
    quiet_run key longUrl cs this = true ->
    run cs this = Normal this_m ->
    removed domain key longUrl this_m.
Proof.
  induction cs as [|c cs IH]; intros this this_m Hrem Hq Hrun; simpl in *.
  - now injection Hrun as <-.
  - apply andb_true_iff in Hq as [Hc Hcs].
    destruct (invoke c this) as [[r this']|] eqn:Hinv; [|discriminate].
    apply (IH this' this_m); auto. eapply removed_invoke; eauto.
Qed.

(** [add] of the long URL again makes the alias resolve. *)
Lemma removed_add_query (domain key longUrl : string) (this : UrlShortener)
  (s rnd u : string) :
  removed domain key longUrl this ->
  _urlSyntaxError s = Normal None ->
  _isSameOrigin this s = true ->
  alias s = Some key ->
  toLowerCase u = longUrl ->
  exists short this_a this_q,
    add rnd u this = Normal (Value (VStr short), this_a)
    /\ query s this_a = Normal (Value (VStr longUrl), this_q).
Proof.
  intros (Hwf & e & Hget & HL & Ha) Hv Ho Hk Hu.
  pose proof Hwf as [Hd Hnd _ _].
  destruct (wf_lookup _ _ _ _ Hwf Hget) as [_ He].
  pose proof He as (Hve & _ & _).
  assert (Hvu : _urlSyntaxError u = Normal None).
  { apply valid_toLowerCase. now rewrite Hu, <- HL. }
  assert (Hou : _isSameOrigin this u = false).
  { rewrite <- _isSameOrigin_toLowerCase, Hu, <- HL.
    now apply (stored_not_same_origin domain). }
  assert (Ht : truthy longUrl = true) by (rewrite <- HL; now apply valid_truthy).
  rewrite (add_valid this rnd u Hnd Hvu Hou). rewrite Hu.
  set (m := List.map (visit (has_longUrl longUrl) (Element.with_active true))
              (collection this)).
  assert (Hm : map_get key m = Some (Element.with_active true e)).
  { unfold m. rewrite map_get_visit, Hget. simpl. unfold has_longUrl.
    now rewrite HL, String.eqb_refl. }
  assert (Hresolve : forall m' : Map,
             (exists e_a, map_get key m' = Some e_a
                          /\ Element.longUrl e_a = longUrl
                          /\ Element.active e_a = true) ->
             exists this_q,
               query s (set_collection this m')
               = Normal (Value (VStr longUrl), this_q)).
  { intros m' (e_a & Hget_a & HL_a & Ha_a). eexists.
    rewrite (query_hit (set_collection this m') s key e_a); auto.
    - now rewrite HL_a.
    - now rewrite HL_a. }
  assert (Hfresh : exists this_q,
             query s (set_collection this
                        (map_set (_generateHash rnd)
                           (Element.mk longUrl 0 true) m))
             = Normal (Value (VStr longUrl), this_q)).
  { apply Hresolve.
    destruct (String.eqb_spec (_generateHash rnd) key) as [->|Hne].
    - rewrite map_get_set_same. eauto.
    - rewrite map_get_set_other by assumption. rewrite Hm. simpl. eauto. }
  destruct (last_key longUrl (collection this)) as [k'|];
    [destruct (truthy k')|].
  - destruct (Hresolve m) as [this_q Hq]; [rewrite Hm; simpl; eauto|].
    eexists _, _, _. split; [reflexivity|exact Hq].
  - destruct Hfresh as [this_q Hq].
    eexists _, _, _. split; [reflexivity|exact Hq].
  - destruct Hfresh as [this_q Hq].
    eexists _, _, _. split; [reflexivity|exact Hq].
Qed.

(** C6, as amended.  (1) On a valid URL [remove] answers with the empty
    object and sets inactive every entry the URL designates (by alias when
    same-origin, by folded long URL otherwise), active before or not, and
    leaves the others; it answers NOT_FOUND, changing nothing, when the URL
    designates none.  (2) After [remove] of a short URL, [query] of it
    answers NOT_FOUND, and goes on doing so over any calls among which no
    [add] is given the long URL again and no [add] of another URL stores a
    new entry under the same alias; [add] of the long URL then makes [query]
    of the short URL succeed again. *)
Theorem remove_behaviour :
  (forall (domain : string) (this : UrlShortener) (url : string),
      reachable domain this ->
      _urlSyntaxError url = Normal None ->
      ((exists entry, In entry (collection this)
                      /\ matches this url entry = true) ->
       remove url this
       = Normal (Empty,
                 set_collection this
                   (List.map (fun entry => if matches this url entry
                                           then set_active false entry
                                           else entry)
                      (collection this))))
      /\ ((forall entry, In entry (collection this) ->
                         matches this url entry = false) ->
          remove url this = Normal (_notFound, this)))
  /\ (forall (domain : string) (this : UrlShortener) (s key : string)
             (e : Element.t),
        reachable domain this ->
        _urlSyntaxError s = Normal None ->
        _isSameOrigin this s = true ->
        alias s = Some key ->
        map_get key (collection this) = Some e ->
        exists this_r,
          remove s this = Normal (Empty, this_r)
          /\ forall (cs : list call) (this_m : UrlShortener),
              quiet_run key (Element.longUrl e) cs this_r = true ->
              run cs this_r = Normal this_m ->
              query s this_m
              = Normal (Error "NOT_FOUND" ("NOT_FOUND: " ++ s ++ " not found"),
                        this_m)
              /\ forall rnd u,
                  toLowerCase u = Element.longUrl e ->
                  exists short this_a this_q,
                    add rnd u this_m = Normal (Value (VStr short), this_a)
                    /\ query s this_a
                       = Normal (Value (VStr (Element.longUrl e)), this_q)).
Proof.
  split.
  - intros domain this url Hreach Hv. apply reachable_wf in Hreach.
    pose proof Hreach as [Hd Hnd _ _].
    pose proof (_isSameOrigin_spec this _ Hv) as Ho.
    unfold remove, matches. rewrite Hv, Ho. unfold alias.
    destruct (spec_same_origin this url) eqn:Hso.
    + pose proof (no_same_origin_stored _ _ _ Hreach Ho) as Hno.
      rewrite (remove_forEach_no_match _ _ Hno), set_collection_same.
      destruct (nth_error (split url) 3) as [key|]; cbn [get].
      * split.
        -- intros ([k e] & Hin & Hm). simpl in Hm.
           apply String.eqb_eq in Hm. subst k.
           rewrite (In_map_get _ _ _ Hnd Hin).
           now rewrite (remove_by_alias_as_map this key e Hnd
                          (In_map_get _ _ _ Hnd Hin)).
        -- intros Hnone.
           destruct (map_get key (collection this)) as [e|] eqn:Hget;
             [|reflexivity].
           apply map_get_In in Hget. specialize (Hnone _ Hget).
           simpl in Hnone. now rewrite String.eqb_refl in Hnone.
      * split; [|reflexivity]. intros (entry & _ & Hm). discriminate.
    + split.
      * intros ([k e] & Hin & Hm). simpl in Hm.
        destruct (remove_forEach (toLowerCase url) (collection this))
          as [m b] eqn:E.
        pose proof (remove_forEach_spec (toLowerCase url) _ Hnd) as Hspec.
        rewrite E in Hspec. injection Hspec as -> Hb.
        destruct b; [reflexivity|].
        destruct (remove_forEach_false (toLowerCase url) (collection this))
          as [_ Hnone]; [now rewrite E|].
        specialize (Hnone _ Hin). unfold has_longUrl in Hnone.
        simpl in Hnone. congruence.
      * intros Hnone.
        rewrite (remove_forEach_no_match _ _ Hnone).
        now rewrite set_collection_same.
  - intros domain this s key e Hreach Hv Ho Hk Hget.
    apply reachable_wf in Hreach. pose proof Hreach as [Hd Hnd _ _].
    destruct (remove s this) as [[r this_r]|] eqn:Hrem.
    2:{ destruct (invoke_total (Remove s) this) as (r & t & H).
        simpl in H. congruence. }
    assert (Hremoved : r = Empty /\ removed domain key (Element.longUrl e) this_r).
    { pose proof (wf_remove _ _ _ _ _ Hreach Hrem) as Hwf_r.
      unfold remove in Hrem. unfold alias in Hk.
      rewrite Hv, Ho, Hk in Hrem. cbn [get] in Hrem. rewrite Hget in Hrem.
      injection Hrem as <- <-. split; [reflexivity|]. split; [assumption|].
      exists (Element.with_active false e). simpl.
      rewrite map_get_set_same. auto. }
    destruct Hremoved as [-> Hremoved].
    exists this_r. split; [reflexivity|].
    intros cs this_m Hq Hrun.
    pose proof (removed_run _ _ _ cs _ _ Hremoved Hq Hrun) as Hm.
    assert (Ho_m : _isSameOrigin this_m s = true).
    { destruct Hm as ([Hd_m _ _ _] & _).
      rewrite (_isSameOrigin_baseUrl this this_m); congruence. }
    split.
    + destruct Hm as (_ & e_m & Hget_m & _ & Ha_m).
      apply (query_miss this_m s key Hv Ho_m Hk). now rewrite Hget_m.
    + intros rnd u Hu.
      apply (removed_add_query domain key _ this_m s rnd u); auto.
Qed.

(** * Further properties of the class *)

(** ** Aliases *)

Lemma length_substring (n m : nat) (s : string) :
  String.length (substring n m s) = Nat.min m (String.length s - n).
Proof.
  revert n m. induction s as [|c s IH]; intros n m.
  - destruct n, m; reflexivity.
  - destruct n as [|n].
    + destruct m as [|m]; simpl; [reflexivity|]. rewrite IH.
      now rewrite Nat.sub_0_r.
    + simpl. apply IH.
Qed.

Lemma all_digit36_substring (s : string) :
  all_digit36 s = true -> forall n m, all_digit36 (substring n m s) = true.
Proof.
  induction s as [|c s IH]; intros H n m.
  - destruct n, m; reflexivity.
  - simpl in H. apply andb_true_iff in H as [Hc Hs].
    destruct n as [|n].
    + destruct m as [|m]; simpl; [reflexivity|]. now rewrite Hc, IH.
    + simpl. now apply IH.
Qed.

Lemma random36_digits (rnd : string) :
  random36 rnd = true ->
  rnd = "0" \/ exists ds, rnd = String "0" (String "." ds) /\ all_digit36 ds = true.
Proof.
  unfold random36. intros H.
  destruct rnd as [|a [|b ds]]; try discriminate.
  - left. destruct a as [[] [] [] [] [] [] [] []]; try discriminate; reflexivity.
  - right. exists ds.
    destruct a as [[] [] [] [] [] [] [] []]; try discriminate.
    destruct b as [[] [] [] [] [] [] [] []]; try discriminate.
    apply andb_true_iff in H as [_ H]. auto.
Qed.

Lemma generateHash_alias_ok (rnd : string) :
  random36 rnd = true -> alias_ok (_generateHash rnd) = true.
Proof.
  intros H. unfold alias_ok, _generateHash, slice.
  rewrite length_substring. apply andb_true_iff. split.
  - apply Nat.leb_le. change (12 - 5)%nat with 7%nat. apply Nat.le_min_l.
  - destruct (random36_digits _ H) as [->|(ds & -> & Hds)]; [reflexivity|].
    change (substring 5 (12 - 5) (String "0" (String "." ds)))
      with (substring 3 7 ds).
    now apply all_digit36_substring.
Qed.

(** X1: the alias that [_generateHash] cuts out of a rendering has the
    characters 5 to 11 of it, so [min 7 (length - 5)] of them: never more
    than seven, and none at all exactly when the rendering has at most five
    characters; cut from a rendering of a number in [0, 1) it holds digits
    in base 36 only. *)
Theorem generateHash_shape (rnd : string) :
  String.length (_generateHash rnd) = Nat.min 7 (String.length rnd - 5)
  /\ (_generateHash rnd = "" <-> String.length rnd <= 5)
  /\ (random36 rnd = true -> all_digit36 (_generateHash rnd) = true).
Proof.
  assert (Hlen : String.length (_generateHash rnd)
                 = Nat.min 7 (String.length rnd - 5)).
  { unfold _generateHash, slice. now rewrite length_substring. }
  split; [exact Hlen|]. split.
  - split.
    + intros H. rewrite H in Hlen. cbn [String.length] in Hlen. lia.
    + intros H. destruct (_generateHash rnd) as [|c s]; [reflexivity|].
      cbn [String.length] in Hlen. lia.
  - intros H. pose proof (generateHash_alias_ok rnd H) as Hok.
    unfold alias_ok in Hok. now apply andb_true_iff in Hok as [_ Hok].
Qed.

(** ** Entries are never deleted *)

Lemma forEach_keys (S : Type) (p : Element.t -> bool) (g : Element.t -> Element.t)
  (h : string -> Element.t -> S -> S) (l : Map) :
  forall acc : Map * S,
    (forall entry, In entry l -> In (fst entry) (keys (fst acc))) ->
    keys (fst (fold_left (callback p g h) l acc)) = keys (fst acc).
Proof.
  induction l as [|[k e] l IH]; intros acc Hin; [reflexivity|].
  cbn [fold_left].
  assert (Hstep : keys (fst (callback p g h acc (k, e))) = keys (fst acc)).
  { unfold callback. destruct (p e); [|reflexivity]. simpl.
    rewrite keys_map_set.
    destruct (in_dec string_dec k (keys (fst acc))) as [|Hno]; [reflexivity|].
    exfalso. apply Hno. apply (Hin (k, e)). now left. }
  rewrite IH, Hstep; [reflexivity|].
  intros entry He. rewrite Hstep. apply Hin. now right.
Qed.

Lemma add_forEach_keys (lower : string) (m : Map) :
  keys (fst (add_forEach lower m)) = keys m.
Proof.
  apply (forEach_keys _ (has_longUrl lower) (Element.with_active true)
           (fun key _ _ => Some key) m (m, None)).
  intros entry Hin. simpl. now apply (in_map fst).
Qed.

Lemma remove_forEach_keys (lower : string) (m : Map) :
  keys (fst (remove_forEach lower m)) = keys m.
Proof.
  apply (forEach_keys _ (has_longUrl lower) (Element.with_active false)
           (fun _ _ _ => true) m (m, false)).
  intros entry Hin. simpl. now apply (in_map fst).
Qed.

Lemma keys_map_set_present (k : string) (v e : Element.t) (m : Map) :
  map_get k m = Some e -> keys (map_set k v m) = keys m.
Proof.
  intros H. rewrite keys_map_set.
  destruct (in_dec string_dec k (keys m)) as [|Hno]; [reflexivity|].
  apply map_get_None in Hno. congruence.
Qed.

Lemma add_keys (rnd u : string) (this this' : UrlShortener) (r : result) :
  add rnd u this = Normal (r, this') ->
  baseUrl this' = baseUrl this
  /\ (keys (collection this') = keys (collection this)
      \/ (~ In (_generateHash rnd) (keys (collection this))
          /\ keys (collection this')
             = (keys (collection this) ++ [_generateHash rnd])%list
          /\ has_value r = true)).
Proof.
  unfold add.
  destruct (_urlSyntaxError u) as [[bad|]|]; [intros [= <- <-]; auto| |discriminate].
  destruct (_isSameOrigin this u); [intros [= <- <-]; auto|].
  pose proof (add_forEach_keys (toLowerCase u) (collection this)) as Hk.
  destruct (add_forEach (toLowerCase u) (collection this)) as [m ex].
  simpl in Hk.
  assert (Hfresh : forall r' this'',
             Normal (r', set_collection this
                           (map_set (_generateHash rnd)
                              (Element.mk (toLowerCase u) 0 true) m))
             = Normal (r, this'') -> has_value r' = true ->
             baseUrl this'' = baseUrl this
             /\ (keys (collection this'') = keys (collection this)
                 \/ (~ In (_generateHash rnd) (keys (collection this))
                     /\ keys (collection this'')
                        = (keys (collection this) ++ [_generateHash rnd])%list
                     /\ has_value r = true))).
  { intros r' this'' [= <- <-] Hv. split; [reflexivity|]. simpl.
    rewrite keys_map_set, Hk.
    destruct (in_dec string_dec (_generateHash rnd) (keys (collection this)));
      auto. }
  destruct ex as [key|]; [destruct (truthy key)|].
  - intros [= <- <-]. simpl. auto.
  - intros H. now apply (Hfresh _ _ H).
  - intros H. now apply (Hfresh _ _ H).
Qed.

Lemma query_keys (s : string) (this this' : UrlShortener) (r : result) :
  query s this = Normal (r, this') ->
  baseUrl this' = baseUrl this
  /\ keys (collection this') = keys (collection this).
Proof.
  unfold query.
  destruct (_urlSyntaxError s) as [[bad|]|]; [intros [= <- <-]; auto| |discriminate].
  destruct (negb (_isSameOrigin this s)); [intros [= <- <-]; auto|].
  destruct (nth_error (split s) 3) as [key|]; cbn [get];
    [|intros [= <- <-]; auto].
  destruct (map_get key (collection this)) as [e|] eqn:Hget;
    [|intros [= <- <-]; auto].
  destruct (truthy (Element.longUrl e) && Element.active e);
    intros [= <- <-]; auto.
  split; [reflexivity|]. simpl. eapply keys_map_set_present; eauto.
Qed.

Lemma remove_keys (u : string) (this this' : UrlShortener) (r : result) :
  remove u this = Normal (r, this') ->
  baseUrl this' = baseUrl this
  /\ keys (collection this') = keys (collection this).
Proof.
  unfold remove.
  destruct (_urlSyntaxError u) as [[bad|]|]; [intros [= <- <-]; auto| |discriminate].
  pose proof (remove_forEach_keys (toLowerCase u) (collection this)) as Hk.
  destruct (remove_forEach (toLowerCase u) (collection this)) as [m b].
  simpl in Hk.
  assert (Hlong : (if b then Normal (Empty, set_collection this m)
                   else Normal (_notFound, set_collection this m))
                  = Normal (r, this') ->
                  baseUrl this' = baseUrl this
                  /\ keys (collection this') = keys (collection this)).
  { destruct b; intros [= <- <-]; auto. }
  destruct (_isSameOrigin this u); [|exact Hlong].
  destruct (nth_error (split u) 3) as [key|]; cbn [get]; [|exact Hlong].
  destruct (map_get key (collection this)) as [e|] eqn:Hget; [|exact Hlong].
  intros [= <- <-]. split; [reflexivity|]. simpl.
  eapply keys_map_set_present; eauto.
Qed.

(** X2: no call deletes an entry or moves one, and none changes the
    configured domain: the keys of the map stay as they are, in their order,
    except that a successful [add] may append the alias it drew when that
    alias was not a key yet. *)
Theorem keys_only_grow (c : call) (this this' : UrlShortener) (r : result) :
  invoke c this = Normal (r, this') ->
  baseUrl this' = baseUrl this
  /\ (keys (collection this') = keys (collection this)
      \/ exists rnd u,
          c = Add rnd u
          /\ has_value r = true
          /\ ~ In (_generateHash rnd) (keys (collection this))
          /\ keys (collection this')
             = (keys (collection this) ++ [_generateHash rnd])%list).
Proof.
  destruct c as [rnd u|s|u|u]; simpl; intros H.
  - destruct (add_keys _ _ _ _ _ H) as [Hb [Hk|(Hno & Hk & Hv)]]; eauto 10.
  - destruct (query_keys _ _ _ _ H); auto.
  - apply count_keeps_store in H. subst. auto.
  - destruct (remove_keys _ _ _ _ H); auto.
Qed.

Lemma invoke_length (c : call) (this this' : UrlShortener) (r : result) :
  invoke c this = Normal (r, this') ->
  List.length (collection this')
  <= List.length (collection this) + count_adds [c].
Proof.
  intros H.
  assert (Hlen : forall m : Map, List.length m = List.length (keys m))
    by (intros m; unfold keys; now rewrite length_map).
  rewrite !Hlen.
  destruct c as [rnd u|s|u|u]; simpl in *.
  - destruct (add_keys _ _ _ _ _ H) as [_ [->|(_ & -> & _)]];
      [lia|rewrite length_app; simpl; lia].
  - destruct (query_keys _ _ _ _ H) as [_ ->]. lia.
  - apply count_keeps_store in H. subst. lia.
  - destruct (remove_keys _ _ _ _ H) as [_ ->]. lia.
Qed.

(** X3: over any sequence of calls the map gains at most one entry per
    call of [add]; starting from a new instance it holds at most as many
    entries as [add] was called. *)
Theorem entries_at_most_adds (cs : list call) (this this' : UrlShortener) :
  run cs this = Normal this' ->
  List.length (collection this')
  <= List.length (collection this) + count_adds cs.
Proof.
  revert this. induction cs as [|c cs IH]; intros this H.
  - injection H as <-. simpl. lia.
  - cbn [run] in H.
    destruct (invoke c this) as [[r this1]|] eqn:Hc; [|discriminate].
    specialize (IH _ H). pose proof (invoke_length _ _ _ _ Hc) as H1.
    replace (count_adds (c :: cs)) with (count_adds [c] + count_adds cs)
      by (destruct c; reflexivity).
    lia.
Qed.

(** ** What a reachable instance holds *)

Lemma reachable_alias_ok (domain : string) (this : UrlShortener) :
  reachable domain this ->
  Forall (fun k => alias_ok k = true) (keys (collection this)).
Proof.
  intros H. induction H as [|c this r this' _ IH Hc Hi].
  - constructor.
  - destruct c as [rnd u|s|u|u]; simpl in Hc, Hi.
    + destruct (add_keys _ _ _ _ _ Hi) as [_ [->|(_ & -> & _)]]; [assumption|].
      apply Forall_app. split; [assumption|].
      constructor; [|constructor]. now apply generateHash_alias_ok.
    + now destruct (query_keys _ _ _ _ Hi) as [_ ->].
    + apply count_keeps_store in Hi. now subst.
    + now destruct (remove_keys _ _ _ _ Hi) as [_ ->].
Qed.

(** X4: on every instance reached from [new UrlShortener(domain)] the
    domain is the configured one, no two entries share a key, every key is
    an alias of at most seven base-36 digits, and every stored long URL is
    valid, left as it is by [toLowerCase] and not a short URL of the
    instance. *)
Theorem reachable_invariant (domain : string) (this : UrlShortener) :
  reachable domain this ->
  baseUrl this = domain
  /\ NoDup (keys (collection this))
  /\ Forall (fun k => alias_ok k = true) (keys (collection this))
  /\ Forall (fun entry =>
               _urlSyntaxError (Element.longUrl (snd entry)) = Normal None
               /\ toLowerCase (Element.longUrl (snd entry))
                  = Element.longUrl (snd entry)
               /\ _isSameOrigin this (Element.longUrl (snd entry)) = false)
       (collection this).
Proof.
  intros H. pose proof (reachable_alias_ok _ _ H) as Hk.
  apply reachable_wf in H. destruct H as [Hd Hnd _ Hs].
  repeat split; auto.
  apply Forall_forall. intros entry Hin.
  rewrite Forall_forall in Hs. specialize (Hs _ Hin).
  pose proof Hs as (Hv & Hlow & _). repeat split; auto.
  now apply (stored_not_same_origin domain).
Qed.

(** ** Letter case *)

(** X5: [add] looks at the letters of a URL through [toLowerCase] only: two
    valid URLs that differ in letter case alone get the same answer and
    leave the same instance.  The same holds for [count] and [remove] of a
    URL that is not same-origin. *)
Theorem long_url_case_insensitive (this : UrlShortener) (rnd u1 u2 : string) :
  toLowerCase u1 = toLowerCase u2 ->
  _urlSyntaxError u1 = Normal None ->
  add rnd u1 this = add rnd u2 this
  /\ (_isSameOrigin this u1 = false ->
      count u1 this = count u2 this /\ remove u1 this = remove u2 this).
Proof.
  intros Hlow Hv1.
  assert (Hv2 : _urlSyntaxError u2 = Normal None).
  { apply valid_toLowerCase. rewrite <- Hlow. now apply valid_toLowerCase. }
  assert (Ho : _isSameOrigin this u2 = _isSameOrigin this u1).
  { rewrite <- (_isSameOrigin_toLowerCase this u2), <- Hlow.
    apply _isSameOrigin_toLowerCase. }
  split.
  - unfold add. now rewrite Hv1, Hv2, Ho, Hlow.
  - intros Ho1. unfold count, remove.
    now rewrite Hv1, Hv2, Ho, Ho1, Hlow.
Qed.

(** ** What [query] answers *)

Lemma query_value_inv (s : string) (this this' : UrlShortener) (v : jsvalue) :
  query s this = Normal (Value v, this') ->
  exists key e,
    v = VStr (Element.longUrl e)
    /\ _urlSyntaxError s = Normal None
    /\ _isSameOrigin this s = true
    /\ alias s = Some key
    /\ map_get key (collection this) = Some e
    /\ Element.active e = true
    /\ this' = set_collection this
                 (map_set key (Element.with_count (Element.count e + 1) e)
                    (collection this)).
Proof.
  unfold query, alias.
  destruct (_urlSyntaxError s) as [[bad|]|] eqn:Hv; [| |discriminate].
  { intros [= Hb _]. subst bad. rewrite _urlSyntaxError_spec in Hv.
    destruct (spec_url_syntax_error s); discriminate. }
  destruct (_isSameOrigin this s) eqn:Ho; cbn [negb]; [|discriminate].
  destruct (nth_error (split s) 3) as [key|]; cbn [get]; [|discriminate].
  destruct (map_get key (collection this)) as [e|] eqn:Hget; [|discriminate].
  destruct (truthy (Element.longUrl e) && Element.active e) eqn:Ha;
    [|discriminate].
  apply andb_true_iff in Ha as [_ Ha].
  intros [= <- <-]. exists key, e. auto 10.
Qed.

Lemma split_parts_no_slash (s : string) :
  Forall (fun part => includes "/" part = false) (split s).
Proof.
  induction s as [|c s IH]; simpl.
  - constructor; [reflexivity|constructor].
  - destruct (Ascii.eqb c "/") eqn:Hc.
    + constructor; [reflexivity|assumption].
    + destruct (split s) as [|part parts]; [constructor; [|constructor]|].
      * simpl. now rewrite Hc.
      * inversion IH; subst. constructor; [|assumption].
        simpl. now rewrite Hc.
Qed.

(** A valid same-origin URL exists only for a well-formed domain. *)
Lemma same_origin_domain_ok (this : UrlShortener) (s : string) :
  _urlSyntaxError s = Normal None ->
  _isSameOrigin this s = true ->
  domain_ok (baseUrl this) = true.
Proof.
  intros Hv Ho.
  destruct (valid_three_parts _ Hv) as (a & b & c & rest & Hs & _ & Hdot).
  apply _isSameOrigin_parts in Ho. rewrite split_toLowerCase, Hs in Ho.
  simpl in Ho. injection Ho as <-.
  pose proof (split_parts_no_slash s) as Hparts. rewrite Hs in Hparts.
  inversion Hparts as [|? ? _ H1]; subst. inversion H1 as [|? ? _ H2]; subst.
  inversion H2 as [|? ? Hc _]; subst.
  unfold domain_ok.
  rewrite includes_slash_toLowerCase, Hc, includes_dot_toLowerCase, Hdot.
  rewrite toLowerCase_idem. simpl. apply String.eqb_refl.
Qed.

(** X6: whatever [query] returns as a value on a reachable instance is the
    long URL of the active entry under the alias of the short URL, and it is
    a URL that [add] accepts: valid, left as it is by [toLowerCase], and not
    same-origin. *)
Theorem query_returns_stored (domain : string) (this this' : UrlShortener)
  (s v : string) :
  reachable domain this ->
  query s this = Normal (Value (VStr v), this') ->
  (exists key e,
      alias s = Some key
      /\ map_get key (collection this) = Some e
      /\ Element.longUrl e = v
      /\ Element.active e = true)
  /\ _urlSyntaxError v = Normal None
  /\ toLowerCase v = v
  /\ _isSameOrigin this v = false.
Proof.
  intros Hreach Hq. apply reachable_wf in Hreach.
  destruct (query_value_inv _ _ _ _ Hq)
    as (key & e & [= ->] & _ & _ & Hk & Hget & Ha & _).
  destruct (wf_lookup _ _ _ _ Hreach Hget) as [_ He].
  pose proof He as (Hv & Hlow & _).
  split; [exists key, e; auto|]. repeat split; auto.
  apply (stored_not_same_origin domain); auto. apply Hreach.
Qed.

(** X7: [query] gets as far as looking up an alias only on an instance whose
    domain has a dot, no slash and is left as it is by [toLowerCase]; on any
    other instance every call of [query] answers URL_SYNTAX or DOMAIN. *)
Theorem query_needs_domain_ok (this this' : UrlShortener) (s : string)
  (r : result) :
  query s this = Normal (r, this') ->
  error_code r <> Some "URL_SYNTAX" ->
  error_code r <> Some "DOMAIN" ->
  domain_ok (baseUrl this) = true.
Proof.
  unfold query.
  destruct (_urlSyntaxError s) as [[bad|]|] eqn:Hv; [| |discriminate].
  { intros [= <- <-] Hne _. exfalso. apply Hne.
    rewrite _urlSyntaxError_spec in Hv.
    destruct (spec_url_syntax_error s); [|discriminate].
    now injection Hv as <-. }
  destruct (_isSameOrigin this s) eqn:Ho; cbn [negb].
  - intros _ _ _. now apply (same_origin_domain_ok this s).
  - intros [= <- <-] _ Hne. now exfalso.
Qed.

(** X8: after [remove] of a long URL no short URL resolves to it: whatever
    [query] then returns as a value differs from the folded URL. *)
Theorem removed_long_url_not_resolved (domain : string)
  (this this' this'' : UrlShortener) (u s v : string) (r : result) :
  reachable domain this ->
  _urlSyntaxError u = Normal None ->
  _isSameOrigin this u = false ->
  remove u this = Normal (r, this') ->
  query s this' = Normal (Value (VStr v), this'') ->
  v <> toLowerCase u.
Proof.
  intros Hreach Hv Ho Hrem Hq. apply reachable_wf in Hreach.
  pose proof Hreach as [_ Hnd _ _].
  unfold remove in Hrem. rewrite Hv, Ho in Hrem.
  rewrite (remove_forEach_spec _ _ Hnd) in Hrem.
  assert (Hthis : this' = set_collection this
                    (List.map (visit (has_longUrl (toLowerCase u))
                                 (Element.with_active false)) (collection this))).
  { destruct (fold_left _ _ _) in Hrem; now injection Hrem as _ <-. }
  subst this'.
  destruct (query_value_inv _ _ _ _ Hq)
    as (key & e' & [= ->] & _ & _ & _ & Hget & Ha & _).
  simpl in Hget. rewrite map_get_visit in Hget.
  destruct (map_get key (collection this)) as [e|]; [|discriminate].
  simpl in Hget. unfold has_longUrl in Hget.
  destruct (String.eqb_spec (Element.longUrl e) (toLowerCase u)) as [HL|HL];
    injection Hget as <-.
  - discriminate.
  - exact HL.
Qed.

(** ** Doing it twice *)

Lemma map_set_twice (k : string) (v v' : Element.t) (m : Map) :
  map_set k v (map_set k v' m) = map_set k v m.
Proof.
  induction m as [|[k0 v0] m IH]; simpl.
  - now rewrite String.eqb_refl.
  - destruct (String.eqb k0 k) eqn:E; simpl.
    + now rewrite String.eqb_refl.
    + now rewrite E, IH.
Qed.

Lemma visit_twice (p : Element.t -> bool) (g : Element.t -> Element.t) (m : Map) :
  (forall e, p e = true -> g (g e) = g e) ->
  (forall e, p (g e) = p e) ->
  List.map (visit p g) (List.map (visit p g) m) = List.map (visit p g) m.
Proof.
  intros Hg Hp. rewrite map_map. apply map_ext. intros [k e].
  unfold visit. simpl. destruct (p e) eqn:E; simpl.
  - now rewrite Hp, E, Hg.
  - now rewrite E.
Qed.

Lemma track_visit (p : Element.t -> bool) (g : Element.t -> Element.t)
  (m : Map) (b : bool) :
  (forall e, p (g e) = p e) ->
  fold_left (track p (fun _ _ _ => true)) (List.map (visit p g) m) b
  = fold_left (track p (fun _ _ _ => true)) m b.
Proof.
  intros Hp. revert b. induction m as [|[k e] m IH]; intros b; [reflexivity|].
  simpl. rewrite IH. f_equal. unfold track, visit. simpl.
  destruct (p e) eqn:E; simpl; [now rewrite Hp, E|now rewrite E].
Qed.

(** What [remove] does to a valid URL, the loop written as a map. *)
Lemma remove_valid (this : UrlShortener) (u : string) :
  NoDup (keys (collection this)) ->
  _urlSyntaxError u = Normal None ->
  let m := List.map (visit (has_longUrl (toLowerCase u))
                       (Element.with_active false)) (collection this) in
  let byLongUrl :=
    if fold_left (track (has_longUrl (toLowerCase u)) (fun _ _ _ => true))
         (collection this) false
    then Normal (Empty, set_collection this m)
    else Normal (_notFound, set_collection this m) in
  remove u this
  = if _isSameOrigin this u
    then match alias u, get (alias u) (collection this) with
         | Some key, Some data =>
             Normal (Empty,
                     set_collection this
                       (map_set key (Element.with_active false data)
                          (collection this)))
         | _, _ => byLongUrl
         end
    else byLongUrl.
Proof.
  intros Hnd Hv. unfold remove, alias.
  rewrite Hv, (remove_forEach_spec _ _ Hnd).
  destruct (_isSameOrigin this u); [|reflexivity].
  destruct (nth_error (split u) 3); reflexivity.
Qed.

(** X9: [remove] is idempotent: on a reachable instance a second [remove]
    of the same URL gives the answer of the first and changes nothing
    more. *)
Theorem remove_idempotent (domain : string) (this this1 : UrlShortener)
  (u : string) (r : result) :
  reachable domain this ->
  remove u this = Normal (r, this1) ->
  remove u this1 = Normal (r, this1).
Proof.
  intros Hreach Hrem. apply reachable_wf in Hreach.
  pose proof (wf_remove _ _ _ _ _ Hreach Hrem) as [_ Hnd1 _ _].
  pose proof Hreach as [_ Hnd _ _].
  destruct (_urlSyntaxError u) as [[bad|]|] eqn:Hv.
  - unfold remove in *. rewrite Hv in *. injection Hrem as <- <-.
    reflexivity.
  - rewrite (remove_valid this1 u Hnd1 Hv).
    rewrite (remove_valid this u Hnd Hv) in Hrem.
    set (p := has_longUrl (toLowerCase u)) in *.
    set (m := List.map (visit p (Element.with_active false)) (collection this))
      in *.
    set (b := fold_left (track p (fun _ _ _ => true)) (collection this) false)
      in *.
    assert (Hlong : (if b then Normal (Empty, set_collection this m)
                     else Normal (_notFound, set_collection this m))
                    = Normal (r, this1) ->
                    (if fold_left (track p (fun _ _ _ => true))
                          (collection this1) false
                     then Normal (Empty,
                            set_collection this1
                              (List.map (visit p (Element.with_active false))
                                 (collection this1)))
                     else Normal (_notFound,
                            set_collection this1
                              (List.map (visit p (Element.with_active false))
                                 (collection this1))))
                    = Normal (r, this1)
                    /\ this1 = set_collection this m).
    { intros H.
      assert (this1 = set_collection this m) as ->
          by (destruct b; now injection H as _ <-).
      split; [|reflexivity]. simpl. unfold m.
      rewrite track_visit by reflexivity.
      rewrite visit_twice by reflexivity. exact H. }
    assert (Ho : _isSameOrigin this1 u = _isSameOrigin this u).
    { apply _isSameOrigin_baseUrl.
      destruct (remove_keys _ _ _ _ (eq_trans (remove_valid this u Hnd Hv) Hrem))
        as [Hb _]. exact Hb. }
    rewrite Ho. destruct (_isSameOrigin this u); [|now apply Hlong].
    destruct (alias u) as [key|]; cbn [get] in *; [|now apply Hlong].
    destruct (map_get key (collection this)) as [data|] eqn:Hget.
    + injection Hrem as <- <-. simpl. rewrite map_get_set_same.
      now rewrite map_set_twice.
    + destruct (Hlong Hrem) as [H ->]. simpl. unfold m.
      rewrite map_get_visit, Hget. simpl. exact H.
  - unfold remove in Hrem. rewrite Hv in Hrem. discriminate.
Qed.

Lemma visit_fixed (p : Element.t -> bool) (g : Element.t -> Element.t) (m : Map) :
  (forall entry, In entry m -> p (snd entry) = true -> g (snd entry) = snd entry) ->
  List.map (visit p g) m = m.
Proof.
  intros H. rewrite <- (map_id m) at 2. apply map_ext_in.
  intros [k e] Hin. unfold visit. simpl.
  destruct (p e) eqn:E; [|reflexivity].
  f_equal. apply (H (k, e) Hin E).
Qed.

(** X10: in a history without an empty alias, [add] is idempotent: a second
    [add] of the same URL gives the answer of the first, whatever random
    number it is given, and leaves the instance as the first left it. *)
Theorem add_idempotent (domain : string) (this this1 : UrlShortener)
  (rnd1 rnd2 u : string) (r : result) :
  reachable_nonempty domain this ->
  nonempty_hash rnd1 = true ->
  add rnd1 u this = Normal (r, this1) ->
  add rnd2 u this1 = Normal (r, this1).
Proof.
  intros Hreach Hrnd Hadd. apply reachable_nonempty_good in Hreach.
  pose proof (good_add _ _ _ _ _ _ Hrnd Hreach Hadd) as (Hwf1 & Ht1 & Hu1).
  pose proof Hwf1 as [_ Hnd1 _ _].
  destruct Hreach as ([Hd Hnd Hks Hs] & Ht & Hu).
  destruct (_urlSyntaxError u) as [[bad|]|] eqn:Hv;
    [unfold add in *; rewrite Hv in *; injection Hadd as <- <-; reflexivity
    | |unfold add in Hadd; rewrite Hv in Hadd; discriminate].
  destruct (_isSameOrigin this u) eqn:Ho.
  { unfold add in *. rewrite Hv, Ho in *. injection Hadd as <- <-.
    now rewrite Ho. }
  rewrite (add_valid this rnd1 u Hnd Hv Ho) in Hadd.
  set (lower := toLowerCase u) in *.
  set (p := has_longUrl lower) in *.
  set (m := List.map (visit p (Element.with_active true)) (collection this)) in *.
  assert (Hm : forall entry, In entry m -> p (snd entry) = true ->
                 Element.with_active true (snd entry) = snd entry).
  { intros entry Hin Hp. unfold m in Hin.
    apply in_map_iff in Hin as ([k e] & <- & _).
    unfold visit in *. simpl in *.
    destruct (p e) eqn:E; simpl in *; [reflexivity|congruence]. }
  assert (Hfirst : exists key e,
             r = Value (VStr (nth 0 (split lower) "" ++ "//" ++ baseUrl this
                              ++ "/" ++ key))
             /\ map_get key (collection this1) = Some e
             /\ Element.longUrl e = lower
             /\ baseUrl this1 = baseUrl this
             /\ forall entry, In entry (collection this1) ->
                  p (snd entry) = true ->
                  Element.with_active true (snd entry) = snd entry).
  { destruct (last_key lower (collection this)) as [key|] eqn:Hlast.
    - destruct (last_key_Some _ _ _ Hlast) as (e & Hin & HL).
      assert (Hkey : truthy key = true).
      { unfold truthy_keys in Ht. rewrite Forall_forall in Ht. apply Ht.
        eapply In_keys; eauto. }
      rewrite Hkey in Hadd. injection Hadd as <- <-.
      exists key, (Element.with_active true e). repeat split; auto.
      simpl. unfold m. rewrite map_get_visit, (In_map_get _ _ _ Hnd Hin).
      simpl. unfold p, has_longUrl. now rewrite HL, String.eqb_refl.
    - injection Hadd as <- <-.
      exists (_generateHash rnd1), (Element.mk lower 0 true).
      repeat split; auto.
      + simpl. apply map_get_set_same.
      + simpl. intros entry Hin Hp.
        apply In_map_set in Hin as [->|Hin]; [reflexivity|auto]. }
  destruct Hfirst as (key & e & -> & Hget & HL & Hb & Hfixed).
  assert (Ho1 : _isSameOrigin this1 u = false)
    by now rewrite (_isSameOrigin_baseUrl this this1).
  rewrite (add_valid this1 rnd2 u Hnd1 Hv Ho1). fold lower. fold p.
  destruct (last_key_found lower _ _ _ (map_get_In _ _ _ Hget) HL) as [k' Hlast].
  rewrite Hlast.
  destruct (last_key_Some _ _ _ Hlast) as (e' & Hin' & HL').
  assert (k' = key) as ->.
  { apply (Hu1 _ _ _ _ Hin' (map_get_In _ _ _ Hget)). congruence. }
  assert (Hkey : truthy key = true).
  { unfold truthy_keys in Ht1. rewrite Forall_forall in Ht1. apply Ht1.
    eapply In_keys; eauto. }
  rewrite Hkey, Hb, (visit_fixed _ _ _ Hfixed).
  now rewrite set_collection_same.
Qed.

(** ** The answers of the four methods *)

Lemma urlSyntaxError_code (url : string) (bad : result) :
  _urlSyntaxError url = Normal (Some bad) ->
  bad = Error "URL_SYNTAX" ("URL_SYNTAX: bad url " ++ url).
Proof.
  rewrite _urlSyntaxError_spec.
  destruct (spec_url_syntax_error url); congruence.
Qed.

(** X11: each method has its own set of answers.  [add] answers with a
    string value or a URL_SYNTAX or DOMAIN error, never NOT_FOUND; [query]
    with a string value or one of the three errors; [count] with a number or
    URL_SYNTAX or NOT_FOUND; [remove] with the empty object or URL_SYNTAX or
    NOT_FOUND; neither [count] nor [remove] ever answers DOMAIN. *)
Theorem result_shapes (c : call) (this this' : UrlShortener) (r : result) :
  invoke c this = Normal (r, this') ->
  let error code := exists message, r = Error code message in
  match c with
  | Add _ _ =>
      (exists s, r = Value (VStr s)) \/ error "URL_SYNTAX" \/ error "DOMAIN"
  | Query _ =>
      (exists s, r = Value (VStr s))
      \/ error "URL_SYNTAX" \/ error "DOMAIN" \/ error "NOT_FOUND"
  | Count _ =>
      (exists n, r = Value (VNum n)) \/ error "URL_SYNTAX" \/ error "NOT_FOUND"
  | Remove _ =>
      r = Empty \/ error "URL_SYNTAX" \/ error "NOT_FOUND"
  end.
Proof.
  intros H error.
  destruct c as [rnd u|u|u|u]; simpl in H;
    [unfold add in H|unfold query in H|unfold count in H|unfold remove in H];
    (destruct (_urlSyntaxError u) as [[bad|]|] eqn:Hv;
     [apply urlSyntaxError_code in Hv; injection H as <- _; subst bad;
      right; left; eexists; reflexivity
     | |discriminate]).
  - destruct (_isSameOrigin this u).
    + injection H as <- _. right. right. eexists; reflexivity.
    + destruct (add_forEach (toLowerCase u) (collection this)) as [m [key|]];
        [destruct (truthy key)|]; injection H as <- _; left; eexists;
        reflexivity.
  - destruct (negb (_isSameOrigin this u)).
    + injection H as <- _. right. right. left. eexists; reflexivity.
    + destruct (nth_error (split u) 3) as [key|]; cbn [get] in H;
        [destruct (map_get key (collection this)) as [e|];
         [destruct (truthy (Element.longUrl e) && Element.active e)|]|];
        injection H as <- _;
        first [left; eexists; reflexivity
              |right; right; right; eexists; reflexivity].
  - destruct (_isSameOrigin this u);
      [destruct (get (nth_error (split u) 3) (collection this))|];
      try destruct (count_forEach (toLowerCase u) (collection this));
      injection H as <- _;
      first [left; eexists; reflexivity
            |right; right; eexists; reflexivity].
  - destruct (remove_forEach (toLowerCase u) (collection this)) as [m [|]];
      destruct (_isSameOrigin this u);
      try (destruct (nth_error (split u) 3) as [key|]; cbn [get] in H;
           [destruct (map_get key (collection this))|]);
      injection H as <- _;
      first [left; reflexivity|right; right; eexists; reflexivity].
Qed.

(** X12: a valid URL is taken by exactly one of [add] and [query]: [add]
    answers DOMAIN precisely when [query] does not. *)
Theorem domain_error_exclusive (this : UrlShortener) (rnd url : string) :
  _urlSyntaxError url = Normal None ->
  exists r_add this_add r_query this_query,
    add rnd url this = Normal (r_add, this_add)
    /\ query url this = Normal (r_query, this_query)
    /\ (error_code r_add = Some "DOMAIN"
        <-> error_code r_query <> Some "DOMAIN").
Proof.
  intros Hv. unfold add, query. rewrite Hv.
  destruct (_isSameOrigin this url); cbn [negb].
  - destruct (nth_error (split url) 3) as [key|]; cbn [get];
      [destruct (map_get key (collection this)) as [e|];
       [destruct (truthy (Element.longUrl e) && Element.active e)|]|];
      eexists _, _, _, _; (split; [reflexivity|]); (split; [reflexivity|]);
      simpl; split; intros; try reflexivity; discriminate.
  - destruct (add_forEach (toLowerCase url) (collection this)) as [m [key|]];
      [destruct (truthy key)|];
      eexists _, _, _, _; (split; [reflexivity|]); (split; [reflexivity|]);
      simpl; split; intros H; try discriminate; now exfalso.
Qed.

(** ** Counts survive [remove] *)

Lemma map_get_map (f : string * Element.t -> string * Element.t)
  (k : string) (m : Map) :
  (forall entry, fst (f entry) = fst entry) ->
  map_get k (List.map f m)
  = option_map (fun e => snd (f (k, e))) (map_get k m).
Proof.
  intros Hf. induction m as [|[k' e] m IH]; simpl; [reflexivity|].
  specialize (Hf (k', e)) as Hk. destruct (f (k', e)) as [k'' e''] eqn:E.
  simpl in Hk. subst k''.
  destruct (String.eqb_spec k' k) as [->|]; [|exact IH].
  simpl. now rewrite E.
Qed.

Lemma count_forEach_map (f : string * Element.t -> string * Element.t)
  (lower : string) (m : Map) :
  (forall entry,
      Element.longUrl (snd (f entry)) = Element.longUrl (snd entry)
      /\ Element.count (snd (f entry)) = Element.count (snd entry)) ->
  count_forEach lower (List.map f m) = count_forEach lower m.
Proof.
  intros Hf. unfold count_forEach. generalize (@None nat).
  induction m as [|entry m IH]; intros acc; [reflexivity|].
  simpl. destruct (Hf entry) as [-> ->]. apply IH.
Qed.

(** [count] reads keys, long URLs and counts, nothing else. *)
Lemma count_same_answer (f : string * Element.t -> string * Element.t)
  (this : UrlShortener) (x : string) :
  (forall entry,
      fst (f entry) = fst entry
      /\ Element.longUrl (snd (f entry)) = Element.longUrl (snd entry)
      /\ Element.count (snd (f entry)) = Element.count (snd entry)) ->
  exists r,
    count x this = Normal (r, this)
    /\ count x (set_collection this (List.map f (collection this)))
       = Normal (r, set_collection this (List.map f (collection this))).
Proof.
  intros Hf. unfold count.
  destruct (_urlSyntaxError x) as [[bad|]|] eqn:Hv.
  - eauto.
  - change (_isSameOrigin (set_collection this (List.map f (collection this))) x)
      with (_isSameOrigin this x).
    cbn [collection set_collection].
    rewrite (count_forEach_map f) by (intros entry; apply (Hf entry)).
    assert (Hlong : exists r,
               match count_forEach (toLowerCase x) (collection this) with
               | Some n => Normal (Value (VNum n), this)
               | None => Normal (_notFound, this)
               end = Normal (r, this)
               /\ match count_forEach (toLowerCase x) (collection this) with
                  | Some n =>
                      Normal (Value (VNum n),
                              set_collection this (List.map f (collection this)))
                  | None =>
                      Normal (_notFound,
                              set_collection this (List.map f (collection this)))
                  end
                  = Normal (r, set_collection this (List.map f (collection this)))).
    { destruct (count_forEach (toLowerCase x) (collection this)); eauto. }
    destruct (_isSameOrigin this x); [|exact Hlong].
    destruct (nth_error (split x) 3) as [key|]; cbn [get]; [|exact Hlong].
    rewrite (map_get_map f) by (intros entry; apply (Hf entry)).
    destruct (map_get key (collection this)) as [e|]; [|exact Hlong].
    simpl. destruct (Hf (key, e)) as (_ & _ & ->). eauto.
  - exfalso. rewrite _urlSyntaxError_spec in Hv.
    destruct (spec_url_syntax_error x); discriminate.
Qed.

(** X13: [remove] changes no answer of [count]: on a reachable instance,
    [count] of any URL answers after a [remove] what it answered before. *)
Theorem remove_keeps_counts (domain : string) (this this' : UrlShortener)
  (u x : string) (r : result) :
  reachable domain this ->
  remove u this = Normal (r, this') ->
  exists answer,
    count x this = Normal (answer, this)
    /\ count x this' = Normal (answer, this').
Proof.
  intros Hreach Hrem. apply reachable_wf in Hreach.
  pose proof Hreach as [_ Hnd _ _].
  destruct (_urlSyntaxError u) as [[bad|]|] eqn:Hv.
  - unfold remove in Hrem. rewrite Hv in Hrem. injection Hrem as _ <-.
    destruct (invoke_total (Count x) this) as (answer & t & H).
    simpl in H. pose proof (count_keeps_store _ _ _ _ H). subst t. eauto.
  - rewrite (remove_valid this u Hnd Hv) in Hrem.
    assert (Hlong : forall b : bool,
               (if b
                then Normal (Empty, set_collection this
                       (List.map (visit (has_longUrl (toLowerCase u))
                                    (Element.with_active false)) (collection this)))
                else Normal (_notFound, set_collection this
                       (List.map (visit (has_longUrl (toLowerCase u))
                                    (Element.with_active false)) (collection this))))
               = Normal (r, this') ->
               exists answer,
                 count x this = Normal (answer, this)
                 /\ count x this' = Normal (answer, this')).
    { intros b H.
      assert (this' = set_collection this
                (List.map (visit (has_longUrl (toLowerCase u))
                             (Element.with_active false)) (collection this)))
        as -> by (destruct b; now injection H as _ <-).
      apply count_same_answer. intros [k e]. unfold visit. simpl.
      destruct (has_longUrl (toLowerCase u) e); auto. }
    destruct (_isSameOrigin this u); [|exact (Hlong _ Hrem)].
    destruct (alias u) as [key|]; cbn [get] in Hrem; [|exact (Hlong _ Hrem)].
    destruct (map_get key (collection this)) as [data|] eqn:Hget;
      [|exact (Hlong _ Hrem)].
    injection Hrem as _ <-.
    rewrite (remove_by_alias_as_map this key data Hnd Hget).
    apply count_same_answer. intros [k e]. simpl.
    destruct (String.eqb k key); auto.
  - unfold remove in Hrem. rewrite Hv in Hrem. discriminate.
Qed.

(** ** A map without entries *)

(** X14: while the map is empty - as on a new instance - [query], [count]
    and [remove] answer every URL with an error and leave the instance as it
    is. *)
Theorem empty_store_finds_nothing (this : UrlShortener) (url : string) :
  collection this = [] ->
  (exists code message, query url this = Normal (Error code message, this))
  /\ (exists code message, count url this = Normal (Error code message, this))
  /\ (exists code message, remove url this = Normal (Error code message, this)).
Proof.
  intros Hm. destruct this as [domain m]. simpl in Hm. subst m.
  unfold query, count, remove. rewrite _urlSyntaxError_spec.
  destruct (spec_url_syntax_error url); [repeat split; eauto|].
  destruct (_isSameOrigin {| baseUrl := domain; collection := [] |} url);
    cbn [negb]; [|repeat split; eexists _, _; reflexivity].
  destruct (nth_error (split url) 3) as [key|];
    repeat split; eexists _, _; reflexivity.
Qed.

(** ** What follows the authority *)

Lemma append_path_part (s p part : string) (i : nat) :
  nth_error (split s) i = Some part ->
  nth_error (split (s ++ String "/" p)) i = Some part.
Proof.
  intros H. rewrite split_app, nth_error_app1; [assumption|].
  apply nth_error_Some. congruence.
Qed.

Lemma startsWith_append (pre a b : string) :
  startsWith pre a = true -> startsWith pre (a ++ b) = true.
Proof.
  revert a. induction pre as [|x pre IH]; intros a H; [reflexivity|].
  destruct a as [|y a]; [discriminate|]. simpl in *.
  apply andb_true_iff in H as [Hxy H]. now rewrite Hxy, IH.
Qed.

Lemma valid_append_path (s p : string) :
  _urlSyntaxError s = Normal None ->
  _urlSyntaxError (s ++ String "/" p) = Normal None.
Proof.
  intros Hv. pose proof (valid_prefix _ Hv) as Hp.
  destruct (valid_three_parts _ Hv) as (a & b & c & rest & Hs & Hc & Hdot).
  assert (H2 : nth_error (split s) 2 = Some c) by now rewrite Hs.
  unfold _urlSyntaxError.
  rewrite toLowerCase_app_slash.
  assert (Hp' : startsWith "http://" (toLowerCase s ++ String "/" (toLowerCase p))
                || startsWith "https://"
                     (toLowerCase s ++ String "/" (toLowerCase p)) = true).
  { apply orb_true_iff in Hp as [Hp|Hp]; apply orb_true_iff;
      [left|right]; now apply startsWith_append. }
  rewrite Hp'. cbn [negb]. rewrite (append_path_part _ p _ _ H2).
  rewrite length_zero_eqb, Hdot.
  destruct (String.eqb_spec c ""); [contradiction|reflexivity].
Qed.

Lemma same_origin_append_path (this : UrlShortener) (s p : string) :
  _urlSyntaxError s = Normal None ->
  _isSameOrigin this (s ++ String "/" p) = _isSameOrigin this s.
Proof.
  intros Hv.
  destruct (valid_three_parts _ Hv) as (a & b & c & rest & Hs & _).
  unfold _isSameOrigin. rewrite toLowerCase_app_slash.
  assert (H2 : nth_error (split (toLowerCase s)) 2 = Some (toLowerCase c))
    by now rewrite split_toLowerCase, Hs.
  now rewrite (append_path_part _ _ _ _ H2), H2.
Qed.

(** X15: the check of a URL stops at the authority: appending a slash and
    any text to a valid URL leaves it valid, and leaves it same-origin or
    not as it was. *)
Theorem path_not_examined (this : UrlShortener) (url path : string) :
  _urlSyntaxError url = Normal None ->
  _urlSyntaxError (url ++ "/" ++ path) = Normal None
  /\ _isSameOrigin this (url ++ "/" ++ path) = _isSameOrigin this url.
Proof.
  intros Hv. split.
  - now apply valid_append_path.
  - now apply same_origin_append_path.
Qed.

(** X16: [query] reads the alias from the fourth part of the URL and
    nothing behind it: a short URL that resolves also resolves, to the same
    long URL and with the same effect, when a slash and any text is
    appended. *)
Theorem query_ignores_trailing_path (this this' : UrlShortener)
  (s path : string) (v : jsvalue) :
  query s this = Normal (Value v, this') ->
  query (s ++ "/" ++ path) this = Normal (Value v, this').
Proof.
  intros Hq.
  destruct (query_value_inv _ _ _ _ Hq)
    as (key & e & -> & Hv & Ho & Hk & Hget & Ha & ->).
  assert (Ht : truthy (Element.longUrl e) = true).
  { unfold query in Hq. unfold alias in Hk.
    rewrite Hv, Ho, Hk in Hq. cbn [negb get] in Hq. rewrite Hget in Hq.
    destruct (truthy (Element.longUrl e)); [reflexivity|discriminate]. }
  apply query_hit; auto.
  - now apply valid_append_path.
  - change (s ++ "/" ++ path) with (s ++ String "/" path).
    now rewrite same_origin_append_path.
  - now apply append_path_part.
Qed.

(** ** What a successful [add] leaves *)

Lemma add_value_inv (rnd u : string) (this this' : UrlShortener) (v : jsvalue) :
  add rnd u this = Normal (Value v, this') ->
  _urlSyntaxError u = Normal None /\ _isSameOrigin this u = false.
Proof.
  unfold add.
  destruct (_urlSyntaxError u) as [[bad|]|] eqn:Hv; [| |discriminate].
  { intros [= Hb _]. subst bad. apply urlSyntaxError_code in Hv. discriminate. }
  destruct (_isSameOrigin this u); [discriminate|auto].
Qed.

(** X17: when [add] answers with a value on a reachable instance, the value
    is the scheme of the submitted URL, lower-cased, two slashes, the
    configured domain, a slash and a key of the map; the entry under that
    key is active and holds the lower-cased URL, as active is every entry
    that holds it; and when no entry held it before, the key is the alias
    just drawn and the count of the entry is zero. *)
Theorem add_outcome (domain : string) (this this' : UrlShortener)
  (rnd u : string) (v : jsvalue) :
  reachable domain this ->
  add rnd u this = Normal (Value v, this') ->
  (exists scheme key e,
      (scheme = "http:" \/ scheme = "https:")
      /\ startsWith (scheme ++ "//") (toLowerCase u) = true
      /\ v = VStr (short_url scheme domain key)
      /\ map_get key (collection this') = Some e
      /\ Element.longUrl e = toLowerCase u
      /\ Element.active e = true
      /\ ((forall entry, In entry (collection this) ->
                         Element.longUrl (snd entry) <> toLowerCase u) ->
          key = _generateHash rnd /\ Element.count e = 0))
  /\ (forall entry, In entry (collection this') ->
                    Element.longUrl (snd entry) = toLowerCase u ->
                    Element.active (snd entry) = true).
Proof.
  intros Hreach Hadd. apply reachable_wf in Hreach.
  pose proof Hreach as [Hd Hnd _ _].
  destruct (add_value_inv _ _ _ _ _ Hadd) as [Hv Ho].
  rewrite (add_valid this rnd u Hnd Hv Ho) in Hadd. rewrite Hd in Hadd.
  set (lower := toLowerCase u) in *.
  set (m := List.map (visit (has_longUrl lower) (Element.with_active true))
              (collection this)) in *.
  pose proof (valid_prefix _ Hv) as Hp. fold lower in Hp.
  destruct (split_scheme _ Hp) as (scheme & rest & Hs & Hl & Hsplit).
  rewrite Hsplit in Hadd. cbn [nth] in Hadd.
  assert (Hstart : startsWith (scheme ++ "//") lower = true).
  { rewrite Hl. destruct Hs as [->| ->]; reflexivity. }
  assert (Hm : forall entry, In entry m ->
                 Element.longUrl (snd entry) = lower ->
                 Element.active (snd entry) = true).
  { intros entry Hin HL. unfold m in Hin.
    apply in_map_iff in Hin as ([k e] & <- & _).
    unfold visit, has_longUrl in *. simpl in *.
    destruct (String.eqb_spec (Element.longUrl e) lower); simpl in *;
      [reflexivity|contradiction]. }
  assert (Hfresh :
    Normal (Value (VStr (scheme ++ "//" ++ domain ++ "/" ++ _generateHash rnd)),
            set_collection this
              (map_set (_generateHash rnd) (Element.mk lower 0 true) m))
    = Normal (Value v, this') ->
    (exists scheme key e,
        (scheme = "http:" \/ scheme = "https:")
        /\ startsWith (scheme ++ "//") lower = true
        /\ v = VStr (short_url scheme domain key)
        /\ map_get key (collection this') = Some e
        /\ Element.longUrl e = lower
        /\ Element.active e = true
        /\ ((forall entry, In entry (collection this) ->
                           Element.longUrl (snd entry) <> lower) ->
            key = _generateHash rnd /\ Element.count e = 0))
    /\ (forall entry, In entry (collection this') ->
                      Element.longUrl (snd entry) = lower ->
                      Element.active (snd entry) = true)).
  { intros [= <- <-]. split.
    - exists scheme, (_generateHash rnd), (Element.mk lower 0 true).
      repeat split; auto. simpl. apply map_get_set_same.
    - simpl. intros entry Hin HL.
      apply In_map_set in Hin as [->|Hin]; [reflexivity|auto]. }
  destruct (last_key lower (collection this)) as [key|] eqn:Hlast;
    [destruct (truthy key)|]; try exact (Hfresh Hadd).
  injection Hadd as <- <-. split; [|exact Hm].
  destruct (last_key_Some _ _ _ Hlast) as (e & Hin & HL).
  exists scheme, key, (Element.with_active true e). repeat split; auto.
  - simpl. unfold m. rewrite map_get_visit, (In_map_get _ _ _ Hnd Hin).
    simpl. unfold has_longUrl. now rewrite HL, String.eqb_refl.
  - exfalso. apply (H (key, e) Hin HL).
  - exfalso. apply (H (key, e) Hin HL).
Qed.

(** C5: on a valid URL, [query] answers DOMAIN when the lower-cased
    authority is not the configured domain; otherwise, with the fourth part
    as the alias, NOT_FOUND when the map has no entry for it or the entry is
    inactive, and else the stored long URL, which [toLowerCase] leaves as it
    is, while the count of that entry goes up by one and nothing else
    changes. *)
Theorem query_behaviour (domain : string) (this : UrlShortener) (shortUrl : string) :
  reachable domain this ->
  _urlSyntaxError shortUrl = Normal None ->
  let not_found :=
    Error "NOT_FOUND" ("NOT_FOUND: " ++ shortUrl ++ " not found") in
  if negb (String.eqb (toLowerCase (authority shortUrl)) domain)
  then query shortUrl this
       = Normal (Error "DOMAIN" "shortUrl domain is not equal to SHORTENER_DOMAIN",
                 this)
  else match get (alias shortUrl) (collection this) with
       | None => query shortUrl this = Normal (not_found, this)
       | Some e =>
           if Element.active e
           then exists key this',
               alias shortUrl = Some key
               /\ query shortUrl this
                  = Normal (Value (VStr (Element.longUrl e)), this')
               /\ toLowerCase (Element.longUrl e) = Element.longUrl e
               /\ baseUrl this' = baseUrl this
               /\ map_get key (collection this')
                  = Some (Element.mk (Element.longUrl e) (Element.count e + 1)
                            (Element.active e))
               /\ forall k', k' <> key ->
                    map_get k' (collection this') = map_get k' (collection this)
           else query shortUrl this = Normal (not_found, this)
       end.
Proof.
  intros Hreach Hv not_found. apply reachable_wf in Hreach.
  pose proof (wf_domain _ _ Hreach) as Hd.
  pose proof (_isSameOrigin_spec this _ Hv) as Ho.
  unfold spec_same_origin in Ho. rewrite Hd in Ho.
  unfold query. rewrite Hv, Ho.
  destruct (String.eqb (toLowerCase (authority shortUrl)) domain); cbn [negb];
    [|reflexivity].
  unfold alias. destruct (nth_error (split shortUrl) 3) as [key|]; cbn [get];
    [|reflexivity].
  destruct (map_get key (collection this)) as [e|] eqn:Hget; [|reflexivity].
  destruct (wf_lookup _ _ _ _ Hreach Hget) as (_ & Hve & Hlow & _).
  rewrite (valid_truthy _ Hve). cbn [andb].
  destruct (Element.active e) eqn:Ha; [|reflexivity].
  eexists key, _. repeat split; try reflexivity.
  - assumption.
  - simpl. rewrite map_get_set_same. unfold Element.with_count.
    now rewrite Ha.
  - intros k' Hne. simpl. apply map_get_set_other. congruence.
Qed.

(** * Agreement on ASCII URLs

    Every platform runs a call on an ASCII URL as the ASCII platform does:
    what the class computes on such a URL does not depend on the platform. *)

Lemma invoke_ascii (c : call) (this : UrlShortener) :
  is_ascii (url_of c) = true ->
  invoke c this = @invoke ascii_platform c this.
Proof.
  intros H.
  destruct c as [rnd u|u|u|u]; simpl in *;
    [unfold add|unfold query|unfold count|unfold remove];
    unfold _urlSyntaxError, _isSameOrigin;
    rewrite !(toLowerCase_ascii _ H); reflexivity.
Qed.

Lemma add_ascii (rnd u : string) (this : UrlShortener) :
  is_ascii u = true -> add rnd u this = @add ascii_platform rnd u this.
Proof. exact (invoke_ascii (Add rnd u) this). Qed.

Lemma query_ascii (u : string) (this : UrlShortener) :
  is_ascii u = true -> query u this = @query ascii_platform u this.
Proof. exact (invoke_ascii (Query u) this). Qed.

Lemma count_ascii (u : string) (this : UrlShortener) :
  is_ascii u = true -> count u this = @count ascii_platform u this.
Proof. exact (invoke_ascii (Count u) this). Qed.

Lemma remove_ascii (u : string) (this : UrlShortener) :
  is_ascii u = true -> remove u this = @remove ascii_platform u this.
Proof. exact (invoke_ascii (Remove u) this). Qed.

(** * The two defects *)

(** C2 fails on the code: the DOMAIN errors of [add] and [query] and the
    NOT_FOUND error of [count] and [remove] carry a message that does not
    start with the code, a colon and a space. *)
Theorem error_message_without_code_prefix :
  let this := constructor "short.ly" in
  let domain_add := "longUrl domain is equal to SHORTENER_DOMAIN" in
  let domain_query := "shortUrl domain is not equal to SHORTENER_DOMAIN" in
  let not_found := "url was never registered for this service" in
  add "0.4fzzzxkxayj" "http://short.ly/x" this
  = Normal (Error "DOMAIN" domain_add, this)
  /\ startsWith "DOMAIN: " domain_add = false
  /\ query "http://example.com/a" this = Normal (Error "DOMAIN" domain_query, this)
  /\ startsWith "DOMAIN: " domain_query = false
  /\ count "http://example.com/a" this = Normal (Error "NOT_FOUND" not_found, this)
  /\ remove "http://example.com/a" this = Normal (Error "NOT_FOUND" not_found, this)
  /\ startsWith "NOT_FOUND: " not_found = false.
Proof.
  cbv zeta.
  rewrite add_ascii, query_ascii, count_ascii, remove_ascii by reflexivity.
  repeat split.
Qed.

(** C3 fails on the code: when the random number renders as [0.i] (one
    half), the alias is the empty string; a second [add] of the same URL
    finds the entry, takes its empty key for "none found", and creates a
    second entry under a new alias. *)
Theorem empty_alias_duplicates_entry :
  let u := "http://example.com/a" in
  let this0 := constructor "short.ly" in
  random36 "0.i" = true
  /\ _generateHash "0.i" = ""
  /\ random36 "0.4fzzzxkxayj" = true
  /\ exists this1 this2,
      add "0.i" u this0 = Normal (Value (VStr "http://short.ly/"), this1)
      /\ add "0.4fzzzxkxayj" u this1
         = Normal (Value (VStr "http://short.ly/zzxkxay"), this2)
      /\ collection this2
         = [("", Element.mk u 0 true); ("zzxkxay", Element.mk u 0 true)].
Proof.
  cbv zeta. split; [reflexivity|]. split; [reflexivity|].
  split; [reflexivity|]. eexists _, _.
  split; [rewrite add_ascii by reflexivity; reflexivity|].
  split; [rewrite add_ascii by reflexivity; reflexivity|reflexivity].
Qed.

End Properties.

(** * Runs of the class on concrete URLs

    The URLs below are ASCII strings, on which every platform computes what
    the ASCII platform computes ([add_ascii], [query_ascii], [count_ascii],
    [remove_ascii]); the runs are evaluated on that platform. *)

#[global] Existing Instance ascii_platform.

(** A failing [add], with the instance it returns. *)
Lemma failure_leaves_store_witness :
  add "0.4fzzzxkxayj" "http://short.ly/x" (constructor "short.ly")
  = Normal (Error "DOMAIN" "longUrl domain is equal to SHORTENER_DOMAIN",
            constructor "short.ly")
  /\ constructor "short.ly" = constructor "short.ly".
Proof.
  split; [reflexivity|].
  apply (failure_leaves_store
           (Add "0.4fzzzxkxayj" "http://short.ly/x") (constructor "short.ly")
           (constructor "short.ly")
           (Error "DOMAIN" "longUrl domain is equal to SHORTENER_DOMAIN"));
    reflexivity.
Defined.

(** The short URL without a path on a fresh instance for short.ly. *)
Lemma operations_total_witness :
  query "http://short.ly" (constructor "short.ly")
  = Normal (Error "NOT_FOUND" "NOT_FOUND: http://short.ly not found",
            constructor "short.ly")
  /\ count "http://short.ly" (constructor "short.ly")
     = Normal (_notFound, constructor "short.ly")
  /\ remove "http://short.ly" (constructor "short.ly")
     = Normal (_notFound, constructor "short.ly").
Proof.
  destruct operations_total as (_ & _ & _ & H).
  apply (H "short.ly" (constructor "short.ly") "http://short.ly");
    [apply reach_new|reflexivity|reflexivity|reflexivity].
Defined.

(** One successful resolution on an instance reached by an [add]. *)
Lemma query_behaviour_witness :
  exists this key this',
    add "0.4fzzzxkxayj" "http://Example.com/A" (constructor "short.ly")
    = Normal (Value (VStr "http://short.ly/zzxkxay"), this)
    /\ alias "http://short.ly/zzxkxay" = Some key
    /\ query "http://short.ly/zzxkxay" this
       = Normal (Value (VStr "http://example.com/a"), this')
    /\ map_get key (collection this')
       = Some (Element.mk "http://example.com/a" 1 true).
Proof.
  eexists _. 
  assert (Hreach : reachable "short.ly"
            (set_collection (constructor "short.ly")
               [("zzxkxay", Element.mk "http://example.com/a" 0 true)])).
  { apply (reach_call random36 "short.ly"
             (Add "0.4fzzzxkxayj" "http://Example.com/A")
             (constructor "short.ly")
             (Value (VStr "http://short.ly/zzxkxay")));
      [apply reach_new|reflexivity|reflexivity]. }
  pose proof (query_behaviour "short.ly" _ "http://short.ly/zzxkxay" Hreach
                eq_refl) as H.
  simpl in H. destruct H as (key & this' & Hk & Hq & _ & _ & Hget & _).
  exists key, this'. repeat split; assumption.
Defined.

(** The count of the entry made by one [add], asked for by the long URL
    in another case. *)
Lemma count_behaviour_witness :
  let this :=
    set_collection (constructor "short.ly")
      [("zzxkxay", Element.mk "http://example.com/a" 0 true)] in
  exists entry,
    In entry (collection this)
    /\ matches this "http://Example.com/A" entry = true
    /\ count "http://Example.com/A" this
       = Normal (Value (VNum (Element.count (snd entry))), this).
Proof.
  destruct count_behaviour as [_ H].
  refine (proj1 (H "short.ly" _ "http://Example.com/A" _ eq_refl) _).
  - apply (reach_call random36 "short.ly"
             (Add "0.4fzzzxkxayj" "http://Example.com/A")
             (constructor "short.ly")
             (Value (VStr "http://short.ly/zzxkxay")));
      [apply reach_new|reflexivity|reflexivity].
  - exists ("zzxkxay", Element.mk "http://example.com/a" 0 true).
    split; [now left|reflexivity].
Defined.

(** [add] and then [query] on a fresh instance for short.ly. *)
Lemma add_then_query_witness :
  exists short this' this'',
    add "0.4fzzzxkxayj" "http://Example.com/A" (constructor "short.ly")
    = Normal (Value (VStr short), this')
    /\ query short this' = Normal (Value (VStr "http://example.com/a"), this'').
Proof.
  refine (add_then_query "short.ly" (constructor "short.ly")
            "0.4fzzzxkxayj" "http://Example.com/A" _ _ _ _ _);
    [reflexivity|apply reach_new|reflexivity|reflexivity|reflexivity].
Defined.

(** An [add] of another URL under another alias, and two resolutions, of an
    entry made by one [add]. *)
Lemma hit_count_persists_witness :
  let u := "http://example.com/a" in
  let s := "http://short.ly/zzxkxay" in
  let this :=
    set_collection (constructor "short.ly") [("zzxkxay", Element.mk u 0 true)] in
  (draws "0.qbg9oojjt3" "http://example.org/b" this = Some "9oojjt3"
   /\ exists r this' e',
       add "0.qbg9oojjt3" "http://example.org/b" this = Normal (r, this')
       /\ map_get "zzxkxay" (collection this') = Some e'
       /\ Element.longUrl e' = u)
  /\ exists this_n,
      queries 2 s u this = Some this_n
      /\ count s this_n = Normal (Value (VNum 2), this_n)
      /\ count u this_n = Normal (Value (VNum 2), this_n).
Proof.
  cbn zeta.
  assert (Hreach : reachable_nonempty "short.ly"
            (set_collection (constructor "short.ly")
               [("zzxkxay", Element.mk "http://example.com/a" 0 true)])).
  { apply (reach_call nonempty_hash "short.ly"
             (Add "0.4fzzzxkxayj" "http://example.com/a")
             (constructor "short.ly")
             (Value (VStr "http://short.ly/zzxkxay")));
      [apply reach_new|reflexivity|reflexivity]. }
  assert (Hreach' : reachable "short.ly"
            (set_collection (constructor "short.ly")
               [("zzxkxay", Element.mk "http://example.com/a" 0 true)])).
  { apply (reach_call random36 "short.ly"
             (Add "0.4fzzzxkxayj" "http://example.com/a")
             (constructor "short.ly")
             (Value (VStr "http://short.ly/zzxkxay")));
      [apply reach_new|reflexivity|reflexivity]. }
  destruct hit_count_persists as [H1 H2]. split.
  - split; [reflexivity|].
    destruct (H1 "short.ly" _
                (set_collection (constructor "short.ly")
                   [("zzxkxay", Element.mk "http://example.com/a" 0 true);
                    ("9oojjt3", Element.mk "http://example.org/b" 0 true)])
                (Add "0.qbg9oojjt3" "http://example.org/b")
                (Value (VStr "http://short.ly/9oojjt3")) "zzxkxay"
                (Element.mk "http://example.com/a" 0 true) Hreach' eq_refl)
      as (e' & Hget & HL & _).
    + intros rnd u [= <- <-]. vm_compute. discriminate.
    + reflexivity.
    + eexists _, _, e'. split; [reflexivity|]. split; [exact Hget|exact HL].
  - destruct (H2 "short.ly" _ "http://short.ly/zzxkxay" "zzxkxay"
                (Element.mk "http://example.com/a" 0 true) 2 Hreach
                eq_refl eq_refl eq_refl eq_refl eq_refl)
      as (this_n & Hq & Hc1 & Hc2 & _).
    exists this_n. auto.
Defined.

(** [remove] of a short URL on an instance reached by one [add]; an [add] of
    another URL under another alias and a [count]; and the [query] that
    follows. *)
Lemma remove_behaviour_witness :
  let u := "http://example.com/a" in
  let s := "http://short.ly/zzxkxay" in
  let this :=
    set_collection (constructor "short.ly") [("zzxkxay", Element.mk u 0 true)] in
  let cs := [Add "0.qbg9oojjt3" "http://example.org/b"; Count u] in
  exists this_r this_m,
    remove s this = Normal (Empty, this_r)
    /\ quiet_run "zzxkxay" u cs this_r = true
    /\ run cs this_r = Normal this_m
    /\ query s this_m
       = Normal (Error "NOT_FOUND" ("NOT_FOUND: " ++ s ++ " not found"), this_m).
Proof.
  cbn zeta.
  assert (Hreach : reachable "short.ly"
            (set_collection (constructor "short.ly")
               [("zzxkxay", Element.mk "http://example.com/a" 0 true)])).
  { apply (reach_call random36 "short.ly"
             (Add "0.4fzzzxkxayj" "http://example.com/a")
             (constructor "short.ly")
             (Value (VStr "http://short.ly/zzxkxay")));
      [apply reach_new|reflexivity|reflexivity]. }
  destruct remove_behaviour as [_ H].
  destruct (H "short.ly" _ "http://short.ly/zzxkxay" "zzxkxay"
              (Element.mk "http://example.com/a" 0 true) Hreach
              eq_refl eq_refl eq_refl eq_refl)
    as (this_r & Hrem & Hafter).
  change (remove _ _)
    with (Normal (Empty,
                  set_collection (constructor "short.ly")
                    [("zzxkxay", Element.mk "http://example.com/a" 0 false)]))
    in Hrem.
  injection Hrem as <-.
  exists (set_collection (constructor "short.ly")
            [("zzxkxay", Element.mk "http://example.com/a" 0 false)]),
         (set_collection (constructor "short.ly")
            [("zzxkxay", Element.mk "http://example.com/a" 0 false);
             ("9oojjt3", Element.mk "http://example.org/b" 0 true)]).
  split; [reflexivity|]. split; [reflexivity|]. split; [reflexivity|].
  exact (proj1 (Hafter [Add "0.qbg9oojjt3" "http://example.org/b";
                        Count "http://example.com/a"] _ eq_refl eq_refl)).
Defined.

(** An [add] that appends its alias. *)
Lemma keys_only_grow_witness :
  exists this',
    add "0.4fzzzxkxayj" "http://example.com/a" (constructor "short.ly")
    = Normal (Value (VStr "http://short.ly/zzxkxay"), this')
    /\ baseUrl this' = "short.ly"
    /\ keys (collection this') = ["zzxkxay"].
Proof.
  eexists. split; [reflexivity|].
  destruct (keys_only_grow (F := ascii_platform)
              (Add "0.4fzzzxkxayj" "http://example.com/a")
              (constructor "short.ly") _ _ eq_refl) as [Hb _].
  split; [exact Hb|reflexivity].
Defined.

(** Two calls of [add] for one URL among four calls leave one entry. *)
Lemma entries_at_most_adds_witness :
  exists this',
    run [Add "0.4fzzzxkxayj" "http://example.com/a";
         Query "http://short.ly/zzxkxay";
         Add "0.4g0zzxkxayi" "HTTP://example.com/a";
         Remove "http://example.com/a"] (constructor "short.ly")
    = Normal this'
    /\ List.length (collection this') <= 2.
Proof.
  eexists. split; [reflexivity|].
  apply (entries_at_most_adds
           [Add "0.4fzzzxkxayj" "http://example.com/a";
            Query "http://short.ly/zzxkxay";
            Add "0.4g0zzxkxayi" "HTTP://example.com/a";
            Remove "http://example.com/a"] (constructor "short.ly")).
  reflexivity.
Defined.

(** The invariant after an [add] in upper case and a [query]. *)
Lemma reachable_invariant_witness :
  let this :=
    set_collection (constructor "short.ly")
      [("zzxkxay", Element.mk "http://example.com/a" 1 true)] in
  baseUrl this = "short.ly"
  /\ NoDup (keys (collection this))
  /\ Forall (fun k => alias_ok k = true) (keys (collection this))
  /\ Forall (fun entry =>
               _urlSyntaxError (Element.longUrl (snd entry)) = Normal None
               /\ toLowerCase (Element.longUrl (snd entry))
                  = Element.longUrl (snd entry)
               /\ _isSameOrigin this (Element.longUrl (snd entry)) = false)
       (collection this).
Proof.
  apply (reachable_invariant "short.ly").
  apply (reach_call random36 "short.ly" (Query "http://short.ly/zzxkxay")
           (set_collection (constructor "short.ly")
              [("zzxkxay", Element.mk "http://example.com/a" 0 true)])
           (Value (VStr "http://example.com/a")));
    [|reflexivity|reflexivity].
  apply (reach_call random36 "short.ly"
           (Add "0.4fzzzxkxayj" "HTTP://Example.com/A")
           (constructor "short.ly")
           (Value (VStr "http://short.ly/zzxkxay")));
    [apply reach_new|reflexivity|reflexivity].
Defined.

(** A URL and its upper-case spelling. *)
Lemma long_url_case_insensitive_witness :
  add "0.4fzzzxkxayj" "http://example.com/a" (constructor "short.ly")
  = add "0.4fzzzxkxayj" "HTTP://EXAMPLE.COM/A" (constructor "short.ly").
Proof.
  apply (long_url_case_insensitive (constructor "short.ly") "0.4fzzzxkxayj"
           "http://example.com/a" "HTTP://EXAMPLE.COM/A");
    reflexivity.
Defined.

(** The URL resolved after one [add]. *)
Lemma query_returns_stored_witness :
  _urlSyntaxError "http://example.com/a" = Normal None
  /\ toLowerCase "http://example.com/a" = "http://example.com/a".
Proof.
  assert (Hreach : reachable "short.ly"
            (set_collection (constructor "short.ly")
               [("zzxkxay", Element.mk "http://example.com/a" 0 true)])).
  { apply (reach_call random36 "short.ly"
             (Add "0.4fzzzxkxayj" "HTTP://Example.com/A")
             (constructor "short.ly")
             (Value (VStr "http://short.ly/zzxkxay")));
      [apply reach_new|reflexivity|reflexivity]. }
  destruct (query_returns_stored "short.ly" _ _ "http://short.ly/zzxkxay"
              "http://example.com/a" Hreach eq_refl) as (_ & Hv & Hlow & _).
  split; assumption.
Defined.

(** A lookup that finds nothing, on a well-formed domain. *)
Lemma query_needs_domain_ok_witness : domain_ok "short.ly" = true.
Proof.
  apply (query_needs_domain_ok (constructor "short.ly") (constructor "short.ly")
           "http://short.ly/abc"
           (Error "NOT_FOUND" "NOT_FOUND: http://short.ly/abc not found"));
    [reflexivity|discriminate|discriminate].
Defined.

(** With two URLs stored, the other one still resolves after the
    [remove]. *)
Lemma removed_long_url_not_resolved_witness :
  let this :=
    set_collection (constructor "short.ly")
      [("zzxkxay", Element.mk "http://example.com/a" 0 true);
       ("9oojjt3", Element.mk "http://example.org/b" 0 true)] in
  exists this' this'',
    remove "http://example.com/a" this = Normal (Empty, this')
    /\ query "http://short.ly/9oojjt3" this'
       = Normal (Value (VStr "http://example.org/b"), this'')
    /\ "http://example.org/b" <> toLowerCase "http://example.com/a".
Proof.
  cbn zeta.
  assert (Hreach : reachable "short.ly"
            (set_collection (constructor "short.ly")
               [("zzxkxay", Element.mk "http://example.com/a" 0 true);
                ("9oojjt3", Element.mk "http://example.org/b" 0 true)])).
  { apply (reach_call random36 "short.ly"
             (Add "0.qbg9oojjt3" "http://example.org/b")
             (set_collection (constructor "short.ly")
                [("zzxkxay", Element.mk "http://example.com/a" 0 true)])
             (Value (VStr "http://short.ly/9oojjt3")));
      [|reflexivity|reflexivity].
    apply (reach_call random36 "short.ly"
             (Add "0.4fzzzxkxayj" "http://example.com/a")
             (constructor "short.ly")
             (Value (VStr "http://short.ly/zzxkxay")));
      [apply reach_new|reflexivity|reflexivity]. }
  eexists _, _. split; [reflexivity|]. split; [reflexivity|].
  eapply (removed_long_url_not_resolved "short.ly" _ _ _
            "http://example.com/a" "http://short.ly/9oojjt3"
            "http://example.org/b" Empty Hreach eq_refl eq_refl);
    reflexivity.
Defined.

(** Removing a long URL twice. *)
Lemma remove_idempotent_witness :
  let this1 :=
    set_collection (constructor "short.ly")
      [("zzxkxay", Element.mk "http://example.com/a" 0 false)] in
  remove "http://example.com/a" this1 = Normal (Empty, this1).
Proof.
  assert (Hreach : reachable "short.ly"
            (set_collection (constructor "short.ly")
               [("zzxkxay", Element.mk "http://example.com/a" 0 true)])).
  { apply (reach_call random36 "short.ly"
             (Add "0.4fzzzxkxayj" "http://example.com/a")
             (constructor "short.ly")
             (Value (VStr "http://short.ly/zzxkxay")));
      [apply reach_new|reflexivity|reflexivity]. }
  apply (remove_idempotent "short.ly" _ _ "http://example.com/a" Empty Hreach).
  reflexivity.
Defined.

(** A second [add], in upper case and with another random number. *)
Lemma add_idempotent_witness :
  let this1 :=
    set_collection (constructor "short.ly")
      [("zzxkxay", Element.mk "http://example.com/a" 0 true)] in
  add "0.i" "HTTP://EXAMPLE.COM/a" this1
  = Normal (Value (VStr "http://short.ly/zzxkxay"), this1).
Proof.
  cbn zeta.
  pose proof (add_idempotent "short.ly" (constructor "short.ly") _
                "0.4fzzzxkxayj" "0.i" "HTTP://EXAMPLE.COM/a" _
                (reach_new nonempty_hash "short.ly") eq_refl eq_refl) as H.
  exact H.
Defined.

(** The answer of [remove] for a URL that was never added. *)
Lemma result_shapes_witness :
  _notFound = Empty
  \/ (exists message, _notFound = Error "URL_SYNTAX" message)
  \/ (exists message, _notFound = Error "NOT_FOUND" message).
Proof.
  apply (result_shapes (Remove "http://example.com/a") (constructor "short.ly")
           (constructor "short.ly") _notFound).
  reflexivity.
Defined.

(** A long URL: [add] takes it, [query] answers DOMAIN. *)
Lemma domain_error_exclusive_witness :
  exists r_add this_add r_query this_query,
    add "0.4fzzzxkxayj" "http://example.com/a" (constructor "short.ly")
    = Normal (r_add, this_add)
    /\ query "http://example.com/a" (constructor "short.ly")
       = Normal (r_query, this_query)
    /\ (error_code r_add = Some "DOMAIN"
        <-> error_code r_query <> Some "DOMAIN").
Proof.
  apply (domain_error_exclusive (constructor "short.ly") "0.4fzzzxkxayj"
           "http://example.com/a").
  reflexivity.
Defined.

(** The count of a resolved entry, before and after its [remove]. *)
Lemma remove_keeps_counts_witness :
  let this :=
    set_collection (constructor "short.ly")
      [("zzxkxay", Element.mk "http://example.com/a" 1 true)] in
  exists this' answer,
    remove "http://short.ly/zzxkxay" this = Normal (Empty, this')
    /\ count "http://example.com/a" this = Normal (answer, this)
    /\ count "http://example.com/a" this' = Normal (answer, this').
Proof.
  cbn zeta.
  assert (Hreach : reachable "short.ly"
            (set_collection (constructor "short.ly")
               [("zzxkxay", Element.mk "http://example.com/a" 1 true)])).
  { apply (reach_call random36 "short.ly" (Query "http://short.ly/zzxkxay")
             (set_collection (constructor "short.ly")
                [("zzxkxay", Element.mk "http://example.com/a" 0 true)])
             (Value (VStr "http://example.com/a")));
      [|reflexivity|reflexivity].
    apply (reach_call random36 "short.ly"
             (Add "0.4fzzzxkxayj" "http://example.com/a")
             (constructor "short.ly")
             (Value (VStr "http://short.ly/zzxkxay")));
      [apply reach_new|reflexivity|reflexivity]. }
  eexists.
  destruct (remove_keeps_counts "short.ly" _ _ "http://short.ly/zzxkxay"
              "http://example.com/a" Empty Hreach eq_refl)
    as (answer & H1 & H2).
  exists answer. split; [reflexivity|]. split; assumption.
Defined.

(** A short URL asked of a new instance. *)
Lemma empty_store_finds_nothing_witness :
  exists code message,
    query "http://short.ly/zzxkxay" (constructor "short.ly")
    = Normal (Error code message, constructor "short.ly").
Proof.
  apply (empty_store_finds_nothing (constructor "short.ly")
           "http://short.ly/zzxkxay").
  reflexivity.
Defined.

(** A path with characters no URL would carry. *)
Lemma path_not_examined_witness :
  _urlSyntaxError ("http://example.com" ++ "/" ++ "a b<c>") = Normal None.
Proof.
  apply (path_not_examined (constructor "short.ly") "http://example.com" "a b<c>").
  reflexivity.
Defined.

(** A short URL with something behind the alias. *)
Lemma query_ignores_trailing_path_witness :
  exists this',
    query "http://short.ly/zzxkxay/x/y"
      (set_collection (constructor "short.ly")
         [("zzxkxay", Element.mk "http://example.com/a" 0 true)])
    = Normal (Value (VStr "http://example.com/a"), this').
Proof.
  eexists.
  apply (query_ignores_trailing_path
           (set_collection (constructor "short.ly")
              [("zzxkxay", Element.mk "http://example.com/a" 0 true)])
           _ "http://short.ly/zzxkxay" "x/y").
  reflexivity.
Defined.

(** The entry a first [add] makes, for a URL given in upper case. *)
Lemma add_outcome_witness :
  exists scheme key e this',
    add "0.4fzzzxkxayj" "HTTPS://Example.com/A" (constructor "short.ly")
    = Normal (Value (VStr (short_url scheme "short.ly" key)), this')
    /\ (scheme = "http:" \/ scheme = "https:")
    /\ map_get key (collection this') = Some e
    /\ Element.longUrl e = "https://example.com/a"
    /\ Element.active e = true.
Proof.
  destruct (add_outcome (F := ascii_platform)
              "short.ly" (constructor "short.ly") _
              "0.4fzzzxkxayj" "HTTPS://Example.com/A" _
              (reach_new random36 "short.ly") eq_refl)
    as [(scheme & key & e & Hs & _ & Hv & Hget & HL & Ha & _) _].
  exists scheme, key, e. eexists. injection Hv as Hv.
  split; [rewrite <- Hv; reflexivity|]. auto.
Defined.

(** C1 as stated fails: with the domain localhost, which has no dot, the
    short URL that [add] returns is refused by [query] as a syntax error. *)
Lemma add_then_query_fails_for_dotless_domain :
  let this := constructor "localhost" in
  let u := "http://example.com/a" in
  reachable "localhost" this
  /\ _urlSyntaxError u = Normal None
  /\ _isSameOrigin this u = false
  /\ exists this',
      add "0.4fzzzxkxayj" u this
      = Normal (Value (VStr "http://localhost/zzxkxay"), this')
      /\ query "http://localhost/zzxkxay" this'
         = Normal (Error "URL_SYNTAX" "URL_SYNTAX: bad url http://localhost/zzxkxay",
                   this').
Proof.
  repeat split; [apply reach_new|]. eexists. split; reflexivity.
Qed.

(** The other two conditions on the domain are needed as well: with a
    letter that [toLowerCase] changes or a slash in it, no URL is ever
    same-origin, and [query] answers DOMAIN on the short URL that [add]
    returned. *)
Lemma add_then_query_fails_for_other_domains :
  let u := "http://example.com/a" in
  (exists this',
      add "0.4fzzzxkxayj" u (constructor "Short.ly")
      = Normal (Value (VStr "http://Short.ly/zzxkxay"), this')
      /\ query "http://Short.ly/zzxkxay" this'
         = Normal (Error "DOMAIN"
                     "shortUrl domain is not equal to SHORTENER_DOMAIN", this'))
  /\ (exists this',
         add "0.4fzzzxkxayj" u (constructor "short.ly/s")
         = Normal (Value (VStr "http://short.ly/s/zzxkxay"), this')
         /\ query "http://short.ly/s/zzxkxay" this'
            = Normal (Error "DOMAIN"
                        "shortUrl domain is not equal to SHORTENER_DOMAIN", this')).
Proof.
  split; eexists; split; reflexivity.
Qed.

(** C4 as stated fails: two renderings that agree on the sliced digits give
    one alias to two URLs; the second [add] replaces the entry of the first,
    so the count of the short URL falls from one to zero. *)
Lemma colliding_alias_resets_count :
  let u1 := "http://example.com/a" in
  let u2 := "http://example.org/b" in
  let s := "http://short.ly/zzxkxay" in
  exists this1 this2 this3,
    add "0.4fzzzxkxayj" u1 (constructor "short.ly")
    = Normal (Value (VStr s), this1)
    /\ query s this1 = Normal (Value (VStr u1), this2)
    /\ count s this2 = Normal (Value (VNum 1), this2)
    /\ _generateHash "0.4g0zzxkxayi" = _generateHash "0.4fzzzxkxayj"
    /\ add "0.4g0zzxkxayi" u2 this2 = Normal (Value (VStr s), this3)
    /\ count s this3 = Normal (Value (VNum 0), this3)
    /\ count u1 this3 = Normal (_notFound, this3).
Proof.
  eexists _, _, _. repeat split.
Qed.

(** C6 as stated fails: after [remove] of a short URL, an [add] of another
    URL that draws the same alias makes [query] of the short URL succeed,
    with the other URL, although the first URL was not added again. *)
Lemma removed_alias_resolves_after_collision :
  let u1 := "http://example.com/a" in
  let u2 := "http://example.org/b" in
  let s := "http://short.ly/zzxkxay" in
  exists this1 this2 this3 this4,
    add "0.4fzzzxkxayj" u1 (constructor "short.ly")
    = Normal (Value (VStr s), this1)
    /\ remove s this1 = Normal (Empty, this2)
    /\ query s this2
       = Normal (Error "NOT_FOUND" ("NOT_FOUND: " ++ s ++ " not found"), this2)
    /\ String.eqb (toLowerCase u2) (toLowerCase u1) = false
    /\ random36 "0.4g0zzxkxayi" = true
    /\ add "0.4g0zzxkxayi" u2 this2 = Normal (Value (VStr s), this3)
    /\ query s this3 = Normal (Value (VStr u2), this4).
Proof.
  eexists _, _, _, _. repeat split.
Qed.

(** The alias that resets a count need not be drawn for another URL: an
    entry under the empty alias is not taken for found, so a second [add] of
    the same URL that draws the empty alias again replaces it, and the count
    of the short URL falls from one to zero. *)
Lemma empty_alias_redrawn_resets_count :
  let u := "http://example.com/a" in
  let s := "http://short.ly/" in
  exists this1 this2 this3,
    add "0.i" u (constructor "short.ly") = Normal (Value (VStr s), this1)
    /\ query s this1 = Normal (Value (VStr u), this2)
    /\ count s this2 = Normal (Value (VNum 1), this2)
    /\ draws "0.i" u this2 = Some ""
    /\ add "0.i" u this2 = Normal (Value (VStr s), this3)
    /\ count s this3 = Normal (Value (VNum 0), this3).
Proof.
  eexists _, _, _. repeat split.
Qed.

(** The empty alias of C3 also shows in [count]: after one resolution,
    [remove] and a new [add] of the same URL, the count asked for by long
    URL is that of the second entry, zero, while the short URL still counts
    one. *)
Lemma empty_alias_loses_count :
  let u := "http://example.com/a" in
  let s := "http://short.ly/" in
  exists this1 this2 this3 this4,
    add "0.i" u (constructor "short.ly") = Normal (Value (VStr s), this1)
    /\ query s this1 = Normal (Value (VStr u), this2)
    /\ count u this2 = Normal (Value (VNum 1), this2)
    /\ remove u this2 = Normal (Empty, this3)
    /\ add "0.4fzzzxkxayj" u this3
       = Normal (Value (VStr "http://short.ly/zzxkxay"), this4)
    /\ count u this4 = Normal (Value (VNum 0), this4)
    /\ count s this4 = Normal (Value (VNum 1), this4).
Proof.
  eexists _, _, _, _. repeat split.
Qed.
